(** * A shallow embedding of json-pretty-printer.go

    The program reads a JSON file as a byte slice, cuts it into tokens
    ([getTokens]) and prints every token as coloured, indented, HTML-escaped
    text ([printTokens], [styleHTML], [addColor], [addWhiteSpace],
    [escapeString]).

    Go values are modelled as the language defines them:
    - a [[]byte] is a [list byte]; indexing outside the slice is the run-time
      panic "index out of range", modelled by the [IndexOutOfRange] outcome;
    - a [string] is a sequence of bytes too ([gostring]); the conversion
      [string(b)] of a byte yields the UTF-8 encoding of the code point [b]
      (two bytes for [b >= 0x80]), and [for _, c := range s] decodes UTF-8,
      yielding U+FFFD for every byte that does not start a valid encoding;
    - indices and lengths are natural numbers (they are never negative and a
      slice is far shorter than [2^63]); [Token.kind] and the indentation
      level are Go [int]s, modelled in [Z]. *)

From Stdlib Require Import ZArith List Lia Bool.
From Stdlib Require Import Strings.Byte Strings.String.
Import ListNotations.

Local Open Scope Z_scope.

(** ** Bytes and strings *)

Definition gostring := list byte.

(** A Go string literal of ASCII characters. *)
Definition lit (s : string) : gostring := list_byte_of_string s.

(** The double quote and the backslash, as one-character strings. *)
Definition dquote : gostring := [x22].
Definition backslash : gostring := [x5c].

Definition byteval (b : byte) : Z := Z.of_N (Byte.to_N b).

(** Go's conversion [byte(x)] keeps the low eight bits. *)
Definition mkbyte (z : Z) : byte :=
  match Byte.of_N (Z.to_N (z mod 256)) with
  | Some b => b
  | None => x00
  end.

(** [==] on strings. *)
Fixpoint streq (a b : gostring) : bool :=
  match a, b with
  | [], [] => true
  | x :: a', y :: b' => Byte.eqb x y && streq a' b'
  | _, _ => false
  end.

(** ** UTF-8, as the Go run time encodes and decodes it (runtime/utf8.go)

    The shifts and masks of the run time are written as divisions and
    remainders: [r >> 6] is [r / 64] and [r & 0x3F] is [r mod 64]. *)

Module utf8.

Definition runeError : Z := 0xFFFD.
Definition maxRune : Z := 0x10FFFF.
Definition surrogateMin : Z := 0xD800.
Definition surrogateMax : Z := 0xDFFF.
Definition rune1Max : Z := 0x7F.
Definition rune2Max : Z := 0x7FF.
Definition rune3Max : Z := 0xFFFF.

Definition encode3 (r : Z) : gostring :=
  [mkbyte (0xE0 + r / 4096); mkbyte (0x80 + (r / 64) mod 64);
   mkbyte (0x80 + r mod 64)].

Definition encode4 (r : Z) : gostring :=
  [mkbyte (0xF0 + r / 262144); mkbyte (0x80 + (r / 4096) mod 64);
   mkbyte (0x80 + (r / 64) mod 64); mkbyte (0x80 + r mod 64)].

(** [encoderune]: the bytes of [string(r)] for an integer [r].  Values that
    are no Unicode scalar value (negative, above [maxRune], surrogates) are
    encoded as U+FFFD. *)
Definition encoderune (r : Z) : gostring :=
  if r <? 0 then encode3 runeError
  else if r <=? rune1Max then [mkbyte r]
  else if r <=? rune2Max then [mkbyte (0xC0 + r / 64); mkbyte (0x80 + r mod 64)]
  else if (maxRune <? r) || ((surrogateMin <=? r) && (r <=? surrogateMax))
       then encode3 runeError
  else if r <=? rune3Max then encode3 r
  else encode4 r.

(** A continuation byte: [locb <= b <= hicb]. *)
Definition isCont (b : byte) : bool :=
  (0x80 <=? byteval b) && (byteval b <=? 0xBF).

(** [decoderune]: the code point that starts the string [s] and the number
    of bytes it occupies; [(runeError, 1)] when [s] does not start with a
    valid, shortest-form encoding.  The first branch is the ASCII fast path
    of the range loop. *)
Definition decoderune (s : gostring) : Z * nat :=
  match s with
  | [] => (runeError, 1%nat)
  | b0 :: s1 =>
    let c0 := byteval b0 in
    if c0 <? 0x80 then (c0, 1%nat)
    else if (0xC0 <=? c0) && (c0 <? 0xE0) then
      match s1 with
      | b1 :: _ =>
        if isCont b1 then
          let r := (c0 mod 32) * 64 + byteval b1 mod 64 in
          if rune1Max <? r then (r, 2%nat) else (runeError, 1%nat)
        else (runeError, 1%nat)
      | _ => (runeError, 1%nat)
      end
    else if (0xE0 <=? c0) && (c0 <? 0xF0) then
      match s1 with
      | b1 :: b2 :: _ =>
        if isCont b1 && isCont b2 then
          let r := (c0 mod 16) * 4096 + (byteval b1 mod 64) * 64
                   + byteval b2 mod 64 in
          if (rune2Max <? r)
             && negb ((surrogateMin <=? r) && (r <=? surrogateMax))
          then (r, 3%nat) else (runeError, 1%nat)
        else (runeError, 1%nat)
      | _ => (runeError, 1%nat)
      end
    else if (0xF0 <=? c0) && (c0 <? 0xF8) then
      match s1 with
      | b1 :: b2 :: b3 :: _ =>
        if isCont b1 && isCont b2 && isCont b3 then
          let r := (c0 mod 8) * 262144 + (byteval b1 mod 64) * 4096
                   + (byteval b2 mod 64) * 64 + byteval b3 mod 64 in
          if (rune3Max <? r) && (r <=? maxRune)
          then (r, 4%nat) else (runeError, 1%nat)
        else (runeError, 1%nat)
      | _ => (runeError, 1%nat)
      end
    else (runeError, 1%nat)
  end.

(** [for _, c := range s]: the code points of [s] in order.  [skip] is the
    number of bytes still belonging to the code point decoded last. *)
Fixpoint rangeFrom (s : gostring) (skip : nat) : list Z :=
  match s with
  | [] => []
  | _ :: rest =>
    match skip with
    | S k => rangeFrom rest k
    | O => let (r, w) := decoderune s in r :: rangeFrom rest (Nat.pred w)
    end
  end.

Definition rangeString (s : gostring) : list Z := rangeFrom s 0.

(** [utf8.RuneCountInString]: the number of characters of a string. *)
Definition RuneCountInString (s : gostring) : nat :=
  List.length (rangeString s).

End utf8.

(** [string(b)] for a byte and [string(r)] for a rune. *)
Definition string_of_rune (r : Z) : gostring := utf8.encoderune r.
Definition string_of_byte (b : byte) : gostring := string_of_rune (byteval b).

(** ** Outcomes of a run *)

Inductive result (A : Type) : Type :=
| Ok (a : A)
| IndexOutOfRange (index : Z) (len : nat)
    (** run-time panic: index out of range [index] with length [len] *)
| OutOfFuel.
    (** the bound on the iterations of a loop of the model was exhausted *)

Arguments Ok {A} a.
Arguments IndexOutOfRange {A} index len.
Arguments OutOfFuel {A}.

Definition bind {A B : Type} (m : result A) (f : A -> result B) : result B :=
  match m with
  | Ok a => f a
  | IndexOutOfRange i n => IndexOutOfRange i n
  | OutOfFuel => OutOfFuel
  end.

Notation "x <- m ;; k" := (bind m (fun x => k))
  (at level 61, m at next level, right associativity).

(** [s[i]] on a byte slice or a string. *)
Definition index (s : list byte) (i : nat) : result byte :=
  match nth_error s i with
  | Some b => Ok b
  | None => IndexOutOfRange (Z.of_nat i) (List.length s)
  end.

(** [s[len(s)-1]]. *)
Definition indexLast (s : list byte) : result byte :=
  match s with
  | [] => IndexOutOfRange (-1) 0
  | _ => index s (List.length s - 1)
  end.

(** ** Tokens *)

Record Token : Type := mkToken { content : gostring; kind : Z }.

(** Parenthesis token types: '{', '}', '[', ']' *)
Definition ObjectOpen : Z := 11.
Definition ObjectClose : Z := 12.
Definition ArrayOpen : Z := 13.
Definition ArrayClose : Z := 14.
(** Delimiter token types: ':', ',' *)
Definition DelimiterPair : Z := 21.
Definition DelimiterMember : Z := 22.
(** String token types *)
Definition StringRegular : Z := 31.
Definition StringEscaped : Z := 32.
Definition StringClose : Z := 33.
(** Number token type *)
Definition Number : Z := 41.
(** Literal token types: 'true', 'false', 'null' *)
Definition LiteralBoolTrue : Z := 51.
Definition LiteralBoolFalse : Z := 52.
Definition LiteralNull : Z := 53.

(** ** getTokens *)

(** The variables of one iteration of the loop of [getTokens] that are
    assigned in one block and read in a later one. *)
Record locals : Type := mkLocals {
  currentCharacter : gostring;
  tokenContent : gostring;
  tokenKind : Z;
  tokenLength : nat;
  isToken : bool;
  isString : bool;
  isStringRegular : bool;
  isNumber : bool
}.

Definition setCurrentCharacter (c : gostring) (l : locals) : locals :=
  mkLocals c (tokenContent l) (tokenKind l) (tokenLength l) (isToken l)
           (isString l) (isStringRegular l) (isNumber l).
Definition setContent (s : gostring) (n : nat) (l : locals) : locals :=
  mkLocals (currentCharacter l) s (tokenKind l) n (isToken l)
           (isString l) (isStringRegular l) (isNumber l).
Definition setKind (k : Z) (l : locals) : locals :=
  mkLocals (currentCharacter l) (tokenContent l) k (tokenLength l) (isToken l)
           (isString l) (isStringRegular l) (isNumber l).
Definition setIsToken (b : bool) (l : locals) : locals :=
  mkLocals (currentCharacter l) (tokenContent l) (tokenKind l) (tokenLength l) b
           (isString l) (isStringRegular l) (isNumber l).
Definition setIsString (b : bool) (l : locals) : locals :=
  mkLocals (currentCharacter l) (tokenContent l) (tokenKind l) (tokenLength l)
           (isToken l) b (isStringRegular l) (isNumber l).
Definition setIsStringRegular (b : bool) (l : locals) : locals :=
  mkLocals (currentCharacter l) (tokenContent l) (tokenKind l) (tokenLength l)
           (isToken l) (isString l) b (isNumber l).
Definition setIsNumber (b : bool) (l : locals) : locals :=
  mkLocals (currentCharacter l) (tokenContent l) (tokenKind l) (tokenLength l)
           (isToken l) (isString l) (isStringRegular l) b.

(** [tokenContent += currentCharacter; tokenLength++] *)
Definition appendCharacter (l : locals) : locals :=
  setContent (tokenContent l ++ currentCharacter l) (S (tokenLength l)) l.

(** Lines 68-79: the default token characteristics. *)
Definition defaults (currentCharacter : gostring) : locals :=
  mkLocals currentCharacter currentCharacter 0 1 true false false false.

(** [tokenArray[len(tokenArray)-1]], when [len(tokenArray) > 0]. *)
Definition lastToken (tokenArray : list Token) : option Token :=
  nth_error tokenArray (List.length tokenArray - 1).

(** Lines 84-112: is this token part of the string the previous token
    belongs to? *)
Definition checkPrevious (tokenArray : list Token) (l : locals)
  : result locals :=
  match lastToken tokenArray with
  | None => Ok l
  | Some previousToken =>
    let previousKind := kind previousToken in
    let previousContent := content previousToken in
    b <- indexLast previousContent ;;
    let previousCharacter := string_of_byte b in
    if previousKind =? StringRegular then
      let l := if negb (streq previousCharacter dquote)
               then setIsString true l else l in
      let l := if streq previousCharacter dquote
                  && (List.length previousContent =? 1)%nat
               then setIsString true l else l in
      Ok l
    else if previousKind =? StringEscaped then
      let l := setIsString true l in
      let l := if streq (currentCharacter l) dquote
               then setKind StringClose l else l in
      Ok l
    else Ok l
  end.

(** Lines 116-157: outside a string the token is determined by a single
    character. *)
Definition classifyCharacter (l : locals) : locals :=
  if negb (isString l) then
    let c := currentCharacter l in
    if streq c (lit "{") then setKind ObjectOpen l
    else if streq c (lit "}") then setKind ObjectClose l
    else if streq c (lit "[") then setKind ArrayOpen l
    else if streq c (lit "]") then setKind ArrayClose l
    else if streq c (lit ":") then setKind DelimiterPair l
    else if streq c (lit ",") then setKind DelimiterMember l
    else if streq c dquote
         then setIsStringRegular true (setKind StringRegular l)
    else if streq c (lit "-") || streq c (lit "0") || streq c (lit "1")
            || streq c (lit "2") || streq c (lit "3") || streq c (lit "4")
            || streq c (lit "5") || streq c (lit "6") || streq c (lit "7")
            || streq c (lit "8") || streq c (lit "9")
         then setIsNumber true (setKind Number l)
    else if streq c (lit "t")
         then setContent (lit "true") 4 (setKind LiteralBoolTrue l)
    else if streq c (lit "f")
         then setContent (lit "false") 5 (setKind LiteralBoolFalse l)
    else if streq c (lit "n")
         then setContent (lit "null") 4 (setKind LiteralNull l)
    else setIsToken false l
  else l.

(** Lines 175-179: [for j := i + 1; j < (i + 6); j++]; [n] is the number of
    iterations left, [(i + 6) - j]. *)
Fixpoint unicodeLoop (n : nat) (jsonFile : list byte) (j : nat) (l : locals)
  : result locals :=
  match n with
  | O => Ok l
  | S n' =>
    b <- index jsonFile j ;;
    let l := setCurrentCharacter (string_of_byte b) l in
    unicodeLoop n' jsonFile (S j) (appendCharacter l)
  end.

(** Lines 161-191: inside a string the token is a StringRegular or a
    StringEscaped. *)
Definition classifyString (jsonFile : list byte) (i : nat) (l : locals)
  : result locals :=
  if isString l then
    let c := currentCharacter l in
    if streq c dquote then
      if negb (tokenKind l =? StringClose)
      then Ok (setIsStringRegular true (setKind StringRegular l))
      else Ok l
    else if streq c backslash then
      let l := setKind StringEscaped l in
      b <- index jsonFile (i + 1) ;;
      let l := setCurrentCharacter (string_of_byte b) l in
      if streq (currentCharacter l) (lit "u")
      then unicodeLoop 5 jsonFile (i + 1) l
      else Ok (appendCharacter l)
    else Ok (setIsStringRegular true (setKind StringRegular l))
  else Ok l.

(** Lines 196-210: [for j := i + 1; !isStringFinished; j++].  The loop has
    no bound of its own; [fuel] bounds the number of its iterations. *)
Fixpoint stringRegularLoop (fuel : nat) (jsonFile : list byte) (j : nat)
         (l : locals) : result locals :=
  match fuel with
  | O => OutOfFuel
  | S fuel' =>
    b <- index jsonFile j ;;
    let l := setCurrentCharacter (string_of_byte b) l in
    if streq (currentCharacter l) dquote then
      Ok (appendCharacter l)
    else if streq (currentCharacter l) backslash then
      Ok l
    else
      stringRegularLoop fuel' jsonFile (S j) (appendCharacter l)
  end.

(** Lines 225-231. *)
Definition validNextNumCharacter (s : gostring) : bool :=
  streq s (lit "-") || streq s (lit "+") || streq s (lit "e")
  || streq s (lit "E") || streq s (lit ".") || streq s (lit "0")
  || streq s (lit "1") || streq s (lit "2") || streq s (lit "3")
  || streq s (lit "4") || streq s (lit "5") || streq s (lit "6")
  || streq s (lit "7") || streq s (lit "8") || streq s (lit "9").

(** Lines 233-242: [for j := i + 1; !isNumberFinished; j++]. *)
Fixpoint numberLoop (fuel : nat) (jsonFile : list byte) (j : nat)
         (l : locals) : result locals :=
  match fuel with
  | O => OutOfFuel
  | S fuel' =>
    b <- index jsonFile j ;;
    let l := setCurrentCharacter (string_of_byte b) l in
    if validNextNumCharacter (currentCharacter l) then
      numberLoop fuel' jsonFile (S j) (appendCharacter l)
    else Ok l
  end.

(** Lines 68-191: the blocks that classify the token that starts at cursor
    [i], up to the two loops that extend it. *)
Definition classify (jsonFile : list byte) (i : nat) (tokenArray : list Token)
  : result locals :=
  b <- index jsonFile i ;;
  l <- checkPrevious tokenArray (defaults (string_of_byte b)) ;;
  classifyString jsonFile i (classifyCharacter l).

(** Lines 68-252: the body of the loop of [getTokens] at cursor [i]; it
    yields the new token array and the new cursor.  The two unbounded inner
    loops read [jsonFile[i+1]], [jsonFile[i+2]], ... and stop at the latest
    with the read of [jsonFile[len(jsonFile)]], after at most
    [len(jsonFile) - i] reads. *)
Definition iteration (jsonFile : list byte) (i : nat) (tokenArray : list Token)
  : result (list Token * nat) :=
  l <- classify jsonFile i tokenArray ;;
  l <- (if isStringRegular l
        then stringRegularLoop (List.length jsonFile - i) jsonFile (i + 1) l
        else Ok l) ;;
  l <- (if isNumber l
        then numberLoop (List.length jsonFile - i) jsonFile (i + 1) l
        else Ok l) ;;
  let tokenArray :=
    if isToken l
    then tokenArray ++ [mkToken (tokenContent l) (tokenKind l)]
    else tokenArray in
  Ok (tokenArray, (i + tokenLength l)%nat).

(** Line 67: [for i := 0; i < len(jsonFile); { ... i += tokenLength }]. *)
Fixpoint getTokensFrom (fuel : nat) (jsonFile : list byte) (i : nat)
         (tokenArray : list Token) : result (list Token) :=
  if (i <? List.length jsonFile)%nat then
    match fuel with
    | O => OutOfFuel
    | S fuel' =>
      st <- iteration jsonFile i tokenArray ;;
      getTokensFrom fuel' jsonFile (snd st) (fst st)
    end
  else Ok tokenArray.

(** [getTokens] returns the array of tokens of the file that is passed in.
    Every iteration moves the cursor forward, so [len(jsonFile)] iterations
    are enough. *)
Definition getTokens (jsonFile : list byte) : result (list Token) :=
  getTokensFrom (List.length jsonFile) jsonFile 0 [].

(** ** Printing *)

(** [x++] and [x--] on a 64-bit [int] wrap around. *)
Definition wrapInt (z : Z) : Z := (z + 2 ^ 63) mod 2 ^ 64 - 2 ^ 63.

Definition tab : gostring := [x09].
Definition newline : gostring := [x0a].

(** [addColor] outputs the <span> tags necessary to color each token. *)
Definition addColor (token : Token) : gostring * gostring :=
  let k := kind token in
  let color : option gostring :=
    if (k =? ObjectOpen) || (k =? ObjectClose) then Some (lit "#D75F5F")
    else if (k =? ArrayOpen) || (k =? ArrayClose) then Some (lit "#10A778")
    else if k =? DelimiterPair then Some (lit "#005F87")
    else if k =? DelimiterMember then Some (lit "#CCCCCC")
    else if (k =? StringRegular) || (k =? StringClose) then Some (lit "#424242")
    else if k =? StringEscaped then Some (lit "#C30771")
    else if k =? Number then Some (lit "#6855DE")
    else if (k =? LiteralBoolTrue) || (k =? LiteralBoolFalse)
            || (k =? LiteralNull) then Some (lit "#20A5BA")
    else None (* printInColor = false *) in
  match color with
  | Some color =>
    (lit "<span style=" ++ dquote ++ lit "color:" ++ color ++ dquote ++ lit ">",
     lit "</span>")
  | None => ([], [])
  end.

(** Lines 320-322: [for i := 1; i < *indentationLevel; i++] appends one tab
    per iteration: [indentationLevel - 1] tabs, none when the level is below
    two. *)
Definition indentStringOf (indentationLevel : Z) : gostring :=
  List.concat (List.repeat tab (Z.to_nat (indentationLevel - 1))).

(** [addWhiteSpace] adds white space before and after the token.  The two
    pointers are modelled by passing the values in and out: the result is
    [(whiteSpacePre, whiteSpacePost, indentationLevel, isToIndent)]. *)
Definition addWhiteSpace (token : Token) (indentationLevel : Z)
           (isToIndent : bool) : gostring * gostring * Z * bool :=
  let indentString := indentStringOf indentationLevel in
  let whiteSpacePre : gostring :=
    if isToIndent then indentString ++ tab else [] in
  let isToIndent := false in
  let k := kind token in
  if (k =? ObjectOpen) || (k =? ArrayOpen) then
    (whiteSpacePre, newline, wrapInt (indentationLevel + 1), true)
  else if (k =? ObjectClose) || (k =? ArrayClose) then
    (newline ++ indentString, [], wrapInt (indentationLevel - 1), isToIndent)
  else if k =? DelimiterPair then
    (lit " ", lit " ", indentationLevel, isToIndent)
  else if k =? DelimiterMember then
    (whiteSpacePre, newline, indentationLevel, true)
  else (whiteSpacePre, [], indentationLevel, isToIndent).

(** Lines 356-369: the body of the loop of [escapeString] for one character. *)
Definition escapeCharacter (character : Z) : gostring :=
  let stringToAdd := string_of_rune character in
  if streq stringToAdd (lit "<") then lit "&lt;"
  else if streq stringToAdd (lit ">") then lit "&gt;"
  else if streq stringToAdd (lit "&") then lit "&amp;"
  else if streq stringToAdd dquote then lit "&quot;"
  else if streq stringToAdd (lit "'") then lit "&apos;"
  else stringToAdd.

(** [escapeString] replaces all characters that cannot be displayed properly
    in HTML with HTML symbols. *)
Definition escapeString (token : Token) : gostring :=
  let newString := content token in
  fold_left (fun escapedString character =>
               escapedString ++ escapeCharacter character)
            (utf8.rangeString newString) [].

(** [styleHTML] combines the outputs of the three functions above; it yields
    the text of the token and the new indentation state. *)
Definition styleHTML (token : Token) (indentationLevel : Z) (isToIndent : bool)
  : gostring * Z * bool :=
  let '(colorPre, colorPost) := addColor token in
  let '(whiteSpacePre, whiteSpacePost, indentationLevel, isToIndent) :=
    addWhiteSpace token indentationLevel isToIndent in
  let escapedString := escapeString token in
  (whiteSpacePre ++ colorPre ++ escapedString ++ colorPost ++ whiteSpacePost,
   indentationLevel, isToIndent).

(** The loop of [printTokens]; [out] is what has been printed so far. *)
Fixpoint printTokensFrom (tokenArray : list Token) (indentationLevel : Z)
         (isToIndent : bool) (out : gostring) : gostring :=
  match tokenArray with
  | [] => out
  | token :: rest =>
    let '(text, indentationLevel, isToIndent) :=
      styleHTML token indentationLevel isToIndent in
    printTokensFrom rest indentationLevel isToIndent (out ++ text)
  end.

(** [printTokens]: the text written to standard output. *)
Definition printTokens (tokenArray : list Token) : gostring :=
  printTokensFrom tokenArray 0 false [].

(** ** Vocabulary of the statements *)

(** A Unicode scalar value: a code point that is no surrogate. *)
Definition validRune (r : Z) : Prop :=
  0 <= r <= utf8.maxRune /\ ~ (utf8.surrogateMin <= r <= utf8.surrogateMax).

(** The five characters replaced by [escapeString]. *)
Definition special (b : byte) : Prop :=
  b = x3c \/ b = x3e \/ b = x26 \/ b = x22 \/ b = x27.

(** The four of them that are markup in HTML text and attribute values:
    [<], [>], the double and the single quote. *)
Definition markup (b : byte) : Prop :=
  b = x3c \/ b = x3e \/ b = x22 \/ b = x27.

(** An out-of-range read one past the last byte of the input. *)
Definition panicsAtEnd {A : Type} (jsonFile : list byte) (r : result A)
  : Prop :=
  r = IndexOutOfRange (Z.of_nat (List.length jsonFile)) (List.length jsonFile).

(** What the inner loops do to the variables of an iteration: characters are
    appended to the content, the length grows, kind and flags stay. *)
Definition extends (l l' : locals) : Prop :=
  exists c ext n,
    l' = mkLocals c (tokenContent l ++ ext) (tokenKind l)
                  (tokenLength l + n) (isToken l) (isString l)
                  (isStringRegular l) (isNumber l).

(** Bytes that do not end a plain run of a string, and bytes that continue a
    number. *)
Definition plain (b : byte) : Prop := b <> x22 /\ b <> x5c.
Definition numeric (b : byte) : Prop :=
  validNextNumCharacter (string_of_byte b) = true.

(** The text of a sequence of input bytes, each converted by [string(b)]. *)
Definition text (bs : list byte) : gostring :=
  List.concat (map string_of_byte bs).

(** The content of an escape token: the backslash and the text of one input
    character, or of five when that character is [u]. *)
Definition escapeSequence (s : gostring) : Prop :=
  exists b bs,
    s = backslash ++ text (b :: bs)
    /\ List.length bs = if Byte.eqb b "u" then 4%nat else 0%nat.

Definition nonempty (t : Token) : Prop := content t <> [].

Definition wellFormed (t : Token) : Prop :=
  nonempty t /\ (kind t = StringEscaped -> escapeSequence (content t)).

(** The variables of an iteration at cursor [i], where the input has the
    byte [b], once the token is classified (after line 191). *)
Inductive classified (b : byte) : locals -> Prop :=
| classified_token (s : gostring) (k : Z) (n : nat) (inString : bool) :
    s <> [] -> (1 <= n)%nat -> k <> StringEscaped ->
    classified b (mkLocals (string_of_byte b) s k n true inString false false)
| classified_skip :
    classified b (mkLocals (string_of_byte b) (string_of_byte b) 0 1 false
                           false false false)
| classified_string (inString : bool) :
    classified b (mkLocals (string_of_byte b) (string_of_byte b) StringRegular
                           1 true inString true false)
| classified_number :
    classified b (mkLocals (string_of_byte b) (string_of_byte b) Number 1 true
                           false false true)
| classified_escape (c s : gostring) (n : nat) :
    escapeSequence s -> (1 <= n)%nat ->
    classified b (mkLocals c s StringEscaped n true true false false).

(** The characters that start a number (line 133). *)
Definition numberStart (b : byte) : Prop := In b (lit "-0123456789").

(** The text of a token without the white space around it: the opening tag,
    the escaped content, the closing tag. *)
Definition styled (token : Token) : gostring :=
  fst (addColor token) ++ escapeString token ++ snd (addColor token).

(** ** The inputs of the examples *)

Module Examples.

(** ["ab"], quotes included. *)
Definition string_ab : list byte := dquote ++ lit "ab" ++ dquote.

(** The empty string literal: two quotes. *)
Definition string_empty : list byte := dquote ++ dquote.

(** A lone quote. *)
Definition lone_quote : list byte := dquote.

(** [{"a":1,"b":[true,null]}] *)
Definition object : list byte :=
  lit "{" ++ dquote ++ lit "a" ++ dquote ++ lit ":1," ++ dquote ++ lit "b"
      ++ dquote ++ lit ":[true,null]}".

(** The bare number, and the same followed by a line feed. *)
Definition number : list byte := lit "-12.5e+3".
Definition number_line : list byte := lit "-12.5e+3" ++ newline.

(** The string literal whose content is the escape sequence backslash,
    [u], [0041]; quotes included it has eight characters. *)
Definition unicode_escape : list byte :=
  dquote ++ backslash ++ lit "u0041" ++ dquote.

(** The same, cut after the second hexadecimal digit. *)
Definition truncated_escape : list byte :=
  dquote ++ backslash ++ lit "u00".

(** [{}] *)
Definition braces : list byte := lit "{}".

(** An array holding the string of the one letter e with acute accent, in
    UTF-8: the letter is the two bytes C3 A9. *)
Definition accent : list byte :=
  lit "[" ++ dquote ++ [xc3; xa9] ++ dquote ++ lit "]".

(** A string literal that is not closed. *)
Definition unterminated : list byte := dquote ++ lit "ab".

(** A string with a two-byte letter, a byte that is no UTF-8, and [a]. *)
Definition mixed_bytes : gostring := [xc3; xa9; xff; x61].

End Examples.

(** The kinds, and the concatenated contents, of the tokens of a run. *)
Definition kindsOf (r : result (list Token)) : result (list Z) :=
  tokenArray <- r ;; Ok (map kind tokenArray).

Definition contentsOf (r : result (list Token)) : result gostring :=
  tokenArray <- r ;; Ok (List.concat (map content tokenArray)).

(** ** The indentation after printing *)

(** The indentation level and the flag that [printTokens] has reached when
    it has printed [tokenArray], having started from the given ones: the two
    variables of lines 262-263 after the loop. *)
Fixpoint indentationAfter (tokenArray : list Token) (indentationLevel : Z)
         (isToIndent : bool) : Z * bool :=
  match tokenArray with
  | [] => (indentationLevel, isToIndent)
  | token :: rest =>
    let '(_, indentationLevel, isToIndent) :=
      styleHTML token indentationLevel isToIndent in
    indentationAfter rest indentationLevel isToIndent
  end.

(** ** The program *)

(** [fmt.Print] and [fmt.Println] with one string operand append the string,
    and for [Println] a line feed, to standard output; a failed write is
    ignored by the program and is not modelled. *)
Definition Print (s : gostring) (stdout : gostring) : gostring :=
  stdout ++ s.
Definition Println (s : gostring) (stdout : gostring) : gostring :=
  stdout ++ s ++ newline.

(** [printHeader] prints a standard HTML header. *)
Definition printHeader (stdout : gostring) : gostring :=
  let stdout := Println (lit "<!doctype html>") stdout in
  let stdout := Println (lit "<html>") stdout in
  let stdout := Println (tab ++ lit "<head>") stdout in
  let stdout :=
    Println (tab ++ tab
             ++ lit "<title>Assignment 2 - Colorized JSON</title>") stdout in
  let stdout := Println (tab ++ lit "</head>") stdout in
  let stdout :=
    Println (tab ++ lit "<body style=" ++ dquote
             ++ lit "background-color:#F1F1F1" ++ dquote ++ lit ">") stdout in
  Println (tab ++ tab ++ lit "<span style=" ++ dquote
           ++ lit "font-family:monospace; tab-size:4; white-space:pre"
           ++ dquote ++ lit ">") stdout.

(** [printFooter] prints a standard HTML footer. *)
Definition printFooter (stdout : gostring) : gostring :=
  let stdout := Print newline stdout in
  let stdout := Println (tab ++ tab ++ lit "</span>") stdout in
  let stdout := Println (tab ++ lit "</body>") stdout in
  Println (lit "</html>") stdout.

(** The value that a panic carries. *)
Inductive panicValue (error : Type) : Type :=
| PanicString (s : gostring)
| PanicError (err : error)
| PanicIndex (index : Z) (len : nat).

Arguments PanicString {error} s.
Arguments PanicError {error} err.
Arguments PanicIndex {error} index len.

(** How a run of the program ends: [main] returns, or a panic ends it; in
    both cases with what has been written to standard output. *)
Inductive outcome (error : Type) : Type :=
| Returned (stdout : gostring)
| Panicked (v : panicValue error) (stdout : gostring)
| Unfinished.
    (** the bound on the iterations of a loop of the model was exhausted *)

Arguments Returned {error} stdout.
Arguments Panicked {error} v stdout.
Arguments Unfinished {error}.

(** [main], for the command line [Args] and a file system that answers
    [ioutil.ReadFile] with the bytes of the file or with an error. *)
Definition main {error : Type} (Args : list gostring)
           (ReadFile : gostring -> list byte + error) : outcome error :=
  let stdout : gostring := [] in
  if (List.length Args <? 2)%nat then
    Panicked (PanicString (lit "Filename not detected")) stdout
  else
    match nth_error Args 1 with
    | None => Panicked (PanicIndex 1 (List.length Args)) stdout
    | Some fileName =>
      match ReadFile fileName with
      | inr err => Panicked (PanicError err) stdout
      | inl jsonFile =>
        match getTokens jsonFile with
        | IndexOutOfRange index len => Panicked (PanicIndex index len) stdout
        | OutOfFuel => Unfinished
        | Ok tokenArray =>
          let stdout := printHeader stdout in
          let stdout := printTokensFrom tokenArray 0 false stdout in
          let stdout := printFooter stdout in
          Returned stdout
        end
      end
    end.

(** ** Vocabulary of the further properties *)

(** The kinds that the constants of lines 36-60 declare. *)
Definition declaredKinds : list Z :=
  [ObjectOpen; ObjectClose; ArrayOpen; ArrayClose; DelimiterPair;
   DelimiterMember; StringRegular; StringEscaped; StringClose; Number;
   LiteralBoolTrue; LiteralBoolFalse; LiteralNull].

(** The bytes that start a token outside a string (lines 117-152); every
    other byte is skipped there (line 153). *)
Definition tokenStart (b : byte) : Prop :=
  In b (lit "{}[]:,-0123456789tfn") \/ b = x22.

(** A byte below 0x80. *)
Definition ascii (b : byte) : Prop := byteval b < 0x80.

(** The three literals: the byte that starts one (lines 138-152), its text
    and its kind. *)
Definition literals : list (byte * gostring * Z) :=
  [("t"%byte, lit "true", LiteralBoolTrue);
   ("f"%byte, lit "false", LiteralBoolFalse);
   ("n"%byte, lit "null", LiteralNull)].

(** A string token whose string is finished (lines 92-102): its content
    ends with a quote that is not the quote that opens the string. *)
Definition closed (s : gostring) : Prop :=
  exists s', s' <> [] /\ s = s' ++ dquote.

(** The bytes [jsonFile[i]], ..., [jsonFile[i+n-1]]. *)
Definition slice (jsonFile : list byte) (i n : nat) : list byte :=
  firstn n (skipn i jsonFile).

(** The token under construction at cursor [i] is the text of the bytes of
    the input from the cursor on, as many as the token is long. *)
Definition reads (jsonFile : list byte) (i : nat) (l : locals) : Prop :=
  tokenContent l = text (slice jsonFile i (tokenLength l))
  /\ (1 <= tokenLength l)%nat
  /\ (i + tokenLength l <= List.length jsonFile)%nat.

(** The content of a token comes from the input: it is the text of a part
    of the input that is not empty. *)
Definition fromInput (jsonFile : list byte) (t : Token) : Prop :=
  exists pre bs post,
    jsonFile = pre ++ bs ++ post /\ bs <> [] /\ content t = text bs.

(** The token is one of the three literals, with its full text. *)
Definition isLiteral (t : Token) : Prop :=
  exists b, In (b, content t, kind t) literals.

(** ** Vocabulary of the further properties of the printer *)

(** The five characters that [escapeString] replaces (lines 358-367), as
    code points, with the text that replaces each. *)
Definition entities : list (Z * gostring) :=
  [(0x3C, lit "&lt;"); (0x3E, lit "&gt;"); (0x26, lit "&amp;");
   (0x22, lit "&quot;"); (0x27, lit "&apos;")].

(** The text for one code point: its entity, or its UTF-8 encoding. *)
Definition escaped (r : Z) : gostring :=
  match find (fun e => fst e =? r) entities with
  | Some e => snd e
  | None => utf8.encoderune r
  end.

(** Well-formed UTF-8: the encodings of Unicode scalar values in a row. *)
Definition validUTF8 (s : gostring) : Prop :=
  exists rs, Forall validRune rs /\ s = List.concat (map utf8.encoderune rs).

(** Strings of spaces, tabs and line feeds. *)
Definition whiteSpace (s : gostring) : Prop :=
  Forall (fun b => In b (lit " " ++ tab ++ newline)) s.

(** Opening and closing tokens, and how many a token array has. *)
Definition opening (token : Token) : bool :=
  (kind token =? ObjectOpen) || (kind token =? ArrayOpen).
Definition closing (token : Token) : bool :=
  (kind token =? ObjectClose) || (kind token =? ArrayClose).
Definition count (p : Token -> bool) (tokenArray : list Token) : Z :=
  Z.of_nat (List.length (filter p tokenArray)).

(** The tag that [addColor] puts before a token in [color]. *)
Definition spanOpen (color : gostring) : gostring :=
  lit "<span style=" ++ dquote ++ lit "color:" ++ color ++ dquote ++ lit ">".

(** ** The inputs of further examples *)

(** Inputs of the examples of the further properties. *)
Module MoreExamples.

(** A space, a line feed, a tab and a letter that starts no token. *)
Definition blank : list byte := lit " " ++ newline ++ tab ++ lit "x".

(** The letter [t] followed by two bytes that are not [ru]. *)
Definition not_true : list byte := lit "t!?".

(** A number between brackets. *)
Definition number_in_array : list byte := lit "[-12.5e+3]".

(** A string with an escaped quote at its end, in an array. *)
Definition escaped_quote : list byte :=
  lit "[" ++ dquote ++ lit "a" ++ backslash ++ dquote ++ dquote ++ lit "]".

End MoreExamples.

(** * Properties *)

(** ** Bytes and string comparison *)

Lemma byteval_range (b : byte) : 0 <= byteval b < 256.
Proof.
  unfold byteval. pose proof (Byte.to_N_bounded b) as H. lia.
Qed.

Lemma mkbyte_byteval (b : byte) : mkbyte (byteval b) = b.
Proof.
  unfold mkbyte, byteval. pose proof (byteval_range b) as H.
  unfold byteval in H.
  rewrite Z.mod_small by lia. rewrite N2Z.id, Byte.of_to_N. reflexivity.
Qed.

Lemma byteval_mkbyte (z : Z) : 0 <= z < 256 -> byteval (mkbyte z) = z.
Proof.
  intros H. unfold mkbyte, byteval. rewrite Z.mod_small by lia.
  destruct (Byte.of_N (Z.to_N z)) as [b|] eqn:E.
  - apply Byte.to_of_N in E. rewrite E. lia.
  - apply Byte.of_N_None_iff in E. lia.
Qed.

Lemma byteval_inj (a b : byte) : byteval a = byteval b -> a = b.
Proof.
  intros H. rewrite <- (mkbyte_byteval a), <- (mkbyte_byteval b), H.
  reflexivity.
Qed.

Lemma byte_eqb_true (a b : byte) : Byte.eqb a b = true <-> a = b.
Proof. split; [apply Byte.byte_dec_bl | apply Byte.byte_dec_lb]. Qed.

Lemma streq_true (a b : gostring) : streq a b = true <-> a = b.
Proof.
  revert b. induction a as [|x a IH]; intros [|y b]; simpl;
    try (split; [discriminate | discriminate]); try tauto.
  rewrite andb_true_iff, byte_eqb_true, IH. split.
  - intros [-> ->]. reflexivity.
  - intros H. inversion H. auto.
Qed.

Lemma streq_false (a b : gostring) : streq a b = false <-> a <> b.
Proof.
  rewrite <- streq_true. destruct (streq a b); split; congruence.
Qed.

(** ** UTF-8: encoding, decoding and the range loop *)

Lemma string_of_byte_ascii (b : byte) :
  byteval b < 0x80 -> string_of_byte b = [b].
Proof.
  intros H. pose proof (byteval_range b) as R.
  unfold string_of_byte, string_of_rune, utf8.encoderune, utf8.rune1Max.
  destruct (byteval b <? 0) eqn:E0; [apply Z.ltb_lt in E0; lia|].
  destruct (byteval b <=? 127) eqn:E1; [|apply Z.leb_gt in E1; lia].
  rewrite mkbyte_byteval. reflexivity.
Qed.

Lemma string_of_byte_high (b : byte) :
  0x80 <= byteval b ->
  string_of_byte b =
  [mkbyte (0xC0 + byteval b / 64); mkbyte (0x80 + byteval b mod 64)].
Proof.
  intros H. pose proof (byteval_range b) as R.
  unfold string_of_byte, string_of_rune, utf8.encoderune, utf8.rune1Max,
    utf8.rune2Max.
  destruct (byteval b <? 0) eqn:E0; [apply Z.ltb_lt in E0; lia|].
  destruct (byteval b <=? 127) eqn:E1; [apply Z.leb_le in E1; lia|].
  destruct (byteval b <=? 2047) eqn:E2; [|apply Z.leb_gt in E2; lia].
  reflexivity.
Qed.

(** Comparisons that were decided by a test become hypotheses of [lia]. *)
Ltac zbool :=
  repeat match goal with
  | H : (_ <? _) = true |- _ => apply Z.ltb_lt in H
  | H : (_ <? _) = false |- _ => apply Z.ltb_ge in H
  | H : (_ <=? _) = true |- _ => apply Z.leb_le in H
  | H : (_ <=? _) = false |- _ => apply Z.leb_gt in H
  | H : (_ && _) = true |- _ => apply andb_true_iff in H; destruct H
  | H : (_ || _) = false |- _ => apply orb_false_iff in H; destruct H
  | H : negb _ = true |- _ => apply negb_true_iff in H
  | H : negb _ = false |- _ => apply negb_false_iff in H
  end.

(** Linear arithmetic with the quotients and remainders by 64, 4096, ... *)
Ltac zarith := Z.div_mod_to_equations; lia.

(** One test of the decoder: the branch that the ranges exclude is closed. *)
Ltac ifstep :=
  match goal with
  | |- context [if ?c then _ else _] =>
    let E := fresh "E" in
    destruct c eqn:E; zbool; try (exfalso; zarith)
  end.

Lemma decoderune_encoderune (r : Z) (rest : gostring) :
  validRune r ->
  utf8.decoderune (utf8.encoderune r ++ rest)
  = (r, List.length (utf8.encoderune r)).
Proof.
  intros [R NS].
  unfold utf8.maxRune, utf8.surrogateMin, utf8.surrogateMax in *.
  unfold utf8.encoderune, utf8.encode3, utf8.encode4, utf8.rune1Max,
    utf8.rune2Max, utf8.rune3Max, utf8.maxRune, utf8.surrogateMin,
    utf8.surrogateMax.
  destruct (r <? 0) eqn:E0; zbool; [lia|].
  destruct (r <=? 127) eqn:E1; zbool.
  { simpl. rewrite byteval_mkbyte by lia.
    destruct (r <? 128) eqn:E; zbool; [reflexivity | lia]. }
  destruct (r <=? 2047) eqn:E2; zbool.
  { cbn [app utf8.decoderune List.length]. unfold utf8.isCont.
    rewrite !byteval_mkbyte by zarith.
    unfold utf8.rune1Max. repeat ifstep.
    f_equal. zarith. }
  destruct ((1114111 <? r) || ((55296 <=? r) && (r <=? 57343))) eqn:E3.
  { exfalso. apply orb_true_iff in E3. destruct E3 as [E3|E3]; zbool; lia. }
  destruct (r <=? 65535) eqn:E4; zbool.
  { cbn [app utf8.decoderune List.length]. unfold utf8.isCont.
    rewrite !byteval_mkbyte by zarith.
    unfold utf8.rune2Max, utf8.surrogateMin, utf8.surrogateMax. repeat ifstep.
    f_equal. clear -R E2 E4. zarith. }
  cbn [app utf8.decoderune List.length]. unfold utf8.isCont.
  rewrite !byteval_mkbyte by zarith.
  unfold utf8.rune3Max, utf8.maxRune. repeat ifstep.
  f_equal. clear -R E4. zarith.
Qed.

Lemma validRune_runeError : validRune utf8.runeError.
Proof.
  unfold validRune, utf8.runeError, utf8.maxRune, utf8.surrogateMin,
    utf8.surrogateMax.
  lia.
Qed.

Lemma decoderune_spec (s : gostring) :
  validRune (fst (utf8.decoderune s))
  /\ (fst (utf8.decoderune s) < 0x80 ->
      exists b rest, s = b :: rest /\ fst (utf8.decoderune s) = byteval b).
Proof.
  assert (E : validRune utf8.runeError /\ (utf8.runeError < 0x80 ->
      exists b rest, s = b :: rest /\ utf8.runeError = byteval b)).
  { split; [apply validRune_runeError | unfold utf8.runeError; lia]. }
  destruct s as [|b0 s1]; [exact E|].
  pose proof (byteval_range b0) as R0.
  unfold utf8.decoderune.
  destruct (byteval b0 <? 128) eqn:A; zbool.
  { simpl. split; [|eauto].
    unfold validRune, utf8.maxRune, utf8.surrogateMin, utf8.surrogateMax. lia. }
  assert (V : forall r (w : nat),
             128 <= r <= 1114111 -> ~ (55296 <= r <= 57343) ->
     validRune (fst (r, w)) /\ (fst (r, w) < 128 ->
      exists b rest, b0 :: s1 = b :: rest /\ fst (r, w) = byteval b)).
  { intros r w H1 H2. simpl. split; [|lia].
    unfold validRune, utf8.maxRune, utf8.surrogateMin, utf8.surrogateMax. lia. }
  unfold utf8.rune1Max, utf8.rune2Max, utf8.rune3Max, utf8.maxRune,
    utf8.surrogateMin, utf8.surrogateMax.
  destruct s1 as [|b1 [|b2 [|b3 s4]]];
    try pose proof (byteval_range b1); try pose proof (byteval_range b2);
    try pose proof (byteval_range b3);
    repeat match goal with
    | |- context [if ?c then _ else _] =>
      let E := fresh "E" in destruct c eqn:E
    end; try exact E; zbool; apply V; zarith.
Qed.

Lemma rangeFrom_skip (a rest : gostring) :
  utf8.rangeFrom (a ++ rest) (List.length a) = utf8.rangeFrom rest 0.
Proof. induction a as [|x a IH]; simpl; [reflexivity | exact IH]. Qed.

Lemma encoderune_nonempty (r : Z) :
  exists b tl, utf8.encoderune r = b :: tl.
Proof.
  unfold utf8.encoderune, utf8.encode3, utf8.encode4.
  repeat match goal with
  | |- context [if ?c then _ else _] => destruct c
  end; eauto.
Qed.

Lemma rangeString_encoderune (r : Z) (rest : gostring) :
  validRune r ->
  utf8.rangeString (utf8.encoderune r ++ rest) = r :: utf8.rangeString rest.
Proof.
  intros V. unfold utf8.rangeString.
  pose proof (decoderune_encoderune r rest V) as D.
  destruct (encoderune_nonempty r) as (b & tl & E).
  rewrite E in *. cbn [app utf8.rangeFrom] in *. rewrite D.
  cbn [List.length Nat.pred]. rewrite rangeFrom_skip. reflexivity.
Qed.

Lemma rangeString_concat_encoderune (rs : list Z) :
  Forall validRune rs ->
  utf8.rangeString (List.concat (map utf8.encoderune rs)) = rs.
Proof.
  induction 1 as [|r rs V _ IH]; [reflexivity|].
  cbn [map List.concat]. rewrite rangeString_encoderune, IH by assumption.
  reflexivity.
Qed.

(** The code points found by a range loop are Unicode scalar values, and an
    ASCII code point is found only where the string has that very byte. *)
Lemma rangeFrom_spec (P : byte -> Prop) (s : gostring) :
  Forall P s -> forall skip,
  Forall (fun r => validRune r /\ (r < 0x80 -> exists b, P b /\ r = byteval b))
         (utf8.rangeFrom s skip).
Proof.
  induction 1 as [|b s Pb Ps IH]; intros skip; cbn [utf8.rangeFrom];
    [constructor|].
  destruct skip as [|k]; [|apply IH].
  destruct (decoderune_spec (b :: s)) as [V A].
  destruct (utf8.decoderune (b :: s)) as [r w]. simpl in V, A.
  constructor; [|apply IH].
  split; [exact V|]. intros L. destruct (A L) as (b' & rest & E & ->).
  inversion E; subst. eauto.
Qed.

Lemma fold_left_app_concat {A : Type} (f : A -> gostring) (l : list A)
      (init : gostring) :
  fold_left (fun acc c => acc ++ f c) l init = init ++ List.concat (map f l).
Proof.
  revert init. induction l as [|x l IH]; intros init; simpl.
  - rewrite app_nil_r. reflexivity.
  - rewrite IH, app_assoc. reflexivity.
Qed.

Lemma escapeString_concat (token : Token) :
  escapeString token
  = List.concat (map escapeCharacter (utf8.rangeString (content token))).
Proof. unfold escapeString. rewrite fold_left_app_concat. reflexivity. Qed.

(** [string(r)] is a given one-character ASCII string only for the code
    point of that character. *)
Lemma string_of_rune_ascii (r : Z) (c : byte) :
  validRune r -> byteval c < 0x80 -> string_of_rune r = [c] -> r = byteval c.
Proof.
  intros V C E. pose proof (decoderune_encoderune r [] V) as D.
  unfold string_of_rune in E. rewrite E in D. simpl in D.
  destruct (byteval c <? 128) eqn:L; zbool; [|lia].
  inversion D. reflexivity.
Qed.

Lemma escapeCharacter_plain (r : Z) :
  validRune r -> (r < 0x80 -> exists b, ~ special b /\ r = byteval b) ->
  escapeCharacter r = string_of_rune r.
Proof.
  intros V A. unfold escapeCharacter.
  assert (N : forall c, special c -> streq (string_of_rune r) [c] = false).
  { intros c S. apply streq_false. intros E.
    assert (C : byteval c < 128)
      by (destruct S as [->|[->|[->|[->| ->]]]]; vm_compute; reflexivity).
    pose proof (string_of_rune_ascii r c V C E) as R.
    destruct A as (b & NS & Eb); [lia|].
    apply NS. rewrite R in Eb. apply byteval_inj in Eb. subst b. exact S. }
  change (lit "<") with [x3c]. change (lit ">") with [x3e].
  change (lit "&") with [x26]. change dquote with [x22].
  change (lit "'") with [x27].
  rewrite !N by (unfold special; tauto). reflexivity.
Qed.

Lemma encoderune_bytes (r : Z) :
  (0 <= r <= 127 /\ utf8.encoderune r = [mkbyte r])
  \/ Forall (fun b => 0x80 <= byteval b) (utf8.encoderune r).
Proof.
  unfold utf8.encoderune, utf8.encode3, utf8.encode4, utf8.rune1Max,
    utf8.rune2Max, utf8.rune3Max, utf8.maxRune, utf8.surrogateMin,
    utf8.surrogateMax, utf8.runeError.
  destruct (r <? 0) eqn:E0; zbool.
  { right. repeat constructor; vm_compute; discriminate. }
  destruct (r <=? 127) eqn:E1; zbool; [left; split; [lia | reflexivity]|].
  right.
  destruct (r <=? 2047) eqn:E2; zbool.
  { repeat constructor; rewrite byteval_mkbyte by zarith; zarith. }
  destruct ((1114111 <? r) || ((55296 <=? r) && (r <=? 57343))) eqn:E3.
  { repeat constructor; vm_compute; discriminate. }
  zbool.
  destruct (r <=? 65535) eqn:E4; zbool;
    repeat constructor; rewrite byteval_mkbyte by zarith; zarith.
Qed.

Lemma escapeCharacter_no_markup (r : Z) :
  Forall (fun b => ~ markup b) (escapeCharacter r).
Proof.
  unfold escapeCharacter.
  change (lit "<") with [x3c]. change (lit ">") with [x3e].
  change (lit "&") with [x26]. change dquote with [x22].
  change (lit "'") with [x27].
  assert (L : forall l : gostring,
             forallb (fun b => negb (Byte.eqb b x3c || Byte.eqb b x3e
                                     || Byte.eqb b x22 || Byte.eqb b x27)) l
             = true -> Forall (fun b => ~ markup b) l).
  { intros l H. rewrite forallb_forall in H. apply Forall_forall.
    intros b I [->|[->|[->| ->]]]; specialize (H _ I); discriminate. }
  destruct (streq (string_of_rune r) [x3c]) eqn:E1; [apply L; reflexivity|].
  destruct (streq (string_of_rune r) [x3e]) eqn:E2; [apply L; reflexivity|].
  destruct (streq (string_of_rune r) [x26]) eqn:E3; [apply L; reflexivity|].
  destruct (streq (string_of_rune r) [x22]) eqn:E4; [apply L; reflexivity|].
  destruct (streq (string_of_rune r) [x27]) eqn:E5; [apply L; reflexivity|].
  unfold string_of_rune in *.
  destruct (encoderune_bytes r) as [[_ E]|H].
  - rewrite E in *. apply streq_false in E1, E2, E4, E5.
    constructor; [|constructor].
    intros [M|[M|[M|M]]]; rewrite M in *; congruence.
  - eapply Forall_impl; [|exact H]. simpl.
    intros b Hb [->|[->|[->| ->]]]; vm_compute in Hb; apply Hb; reflexivity.
Qed.

(** * The tokenizer *)

(** ** Comparing [string(b)] with a one-character string *)

Lemma streq_string_of_byte (b c : byte) :
  byteval c < 0x80 -> streq (string_of_byte b) [c] = Byte.eqb b c.
Proof.
  intros C. destruct (Z.ltb_spec (byteval b) 0x80) as [L|G].
  - rewrite string_of_byte_ascii by exact L. simpl. apply andb_true_r.
  - rewrite string_of_byte_high by exact G. simpl. rewrite andb_false_r.
    symmetry. destruct (Byte.eqb b c) eqn:E; [|reflexivity].
    apply byte_eqb_true in E. subst. lia.
Qed.

Lemma string_of_byte_nonempty (b : byte) : string_of_byte b <> [].
Proof.
  unfold string_of_byte, string_of_rune.
  destruct (encoderune_nonempty (byteval b)) as (x & tl & E). rewrite E.
  discriminate.
Qed.

(** ** Indexing *)

Lemma index_Ok (s : list byte) (i : nat) :
  (i < List.length s)%nat ->
  exists b, index s i = Ok b /\ nth_error s i = Some b.
Proof.
  intros H. unfold index. destruct (nth_error s i) as [b|] eqn:E; [eauto|].
  apply nth_error_None in E. lia.
Qed.

Lemma index_panic (s : list byte) (i : nat) :
  (List.length s <= i)%nat ->
  index s i = IndexOutOfRange (Z.of_nat i) (List.length s).
Proof.
  intros H. unfold index. apply nth_error_None in H. rewrite H. reflexivity.
Qed.

Lemma index_cases (s : list byte) (i : nat) :
  (i <= List.length s)%nat ->
  (exists b, (i < List.length s)%nat /\ index s i = Ok b
             /\ nth_error s i = Some b)
  \/ (i = List.length s /\ panicsAtEnd s (index s i)).
Proof.
  intros H. destruct (Nat.eq_dec i (List.length s)) as [->|N].
  - right. split; [reflexivity|]. apply index_panic. lia.
  - left. destruct (index_Ok s i) as (b & E & F); [lia|]. exists b.
    split; [lia | auto].
Qed.

(** ** The frame of the inner loops *)

Lemma extends_refl (l : locals) : extends l l.
Proof.
  destruct l as [c s k n t st sr nu]. exists c, [], 0%nat. simpl.
  rewrite app_nil_r, Nat.add_0_r. reflexivity.
Qed.

Lemma extends_trans (a b c : locals) :
  extends a b -> extends b c -> extends a c.
Proof.
  intros (c1 & e1 & n1 & ->) (c2 & e2 & n2 & ->). simpl.
  exists c2, (e1 ++ e2), (n1 + n2)%nat.
  rewrite app_assoc, Nat.add_assoc. reflexivity.
Qed.

Lemma extends_append (l : locals) (c : gostring) :
  extends l (appendCharacter (setCurrentCharacter c l)).
Proof.
  destruct l. exists c, c, 1%nat. simpl. rewrite Nat.add_1_r. reflexivity.
Qed.

Lemma extends_current (l : locals) (c : gostring) :
  extends l (setCurrentCharacter c l).
Proof.
  destruct l. exists c, [], 0%nat. simpl.
  rewrite app_nil_r, Nat.add_0_r. reflexivity.
Qed.

(** One more character is read and appended, then the loop goes on: the
    step shared by the three inner loops. *)
Ltac loop_continues IH j b l :=
  destruct (IH (S j)
                (appendCharacter (setCurrentCharacter (string_of_byte b) l)))
    as [(?l' & ?E' & ?X) | ?P];
  [lia.. | left; eexists; split; [eassumption|];
           eapply extends_trans; [apply extends_append | eassumption]
         | right; assumption].

Section Loops.

Variable jsonFile : list byte.

Lemma stringRegularLoop_total (fuel : nat) :
  forall (j : nat) (l : locals),
    (j <= List.length jsonFile)%nat ->
    (List.length jsonFile - j < fuel)%nat ->
    (exists l', stringRegularLoop fuel jsonFile j l = Ok l' /\ extends l l')
    \/ panicsAtEnd jsonFile (stringRegularLoop fuel jsonFile j l).
Proof.
  induction fuel as [|fuel IH]; intros j l Hj Hf; [lia|].
  cbn [stringRegularLoop].
  destruct (index_cases jsonFile j Hj) as [(b & Lt & E & _)|[_ P]].
  2:{ right. red. rewrite P. reflexivity. }
  rewrite E. cbn [bind].
  destruct (streq _ dquote).
  { left. eexists. split; [reflexivity | apply extends_append]. }
  destruct (streq _ backslash).
  { left. eexists. split; [reflexivity | apply extends_current]. }
  loop_continues IH j b l.
Qed.

Lemma numberLoop_total (fuel : nat) :
  forall (j : nat) (l : locals),
    (j <= List.length jsonFile)%nat ->
    (List.length jsonFile - j < fuel)%nat ->
    (exists l', numberLoop fuel jsonFile j l = Ok l' /\ extends l l')
    \/ panicsAtEnd jsonFile (numberLoop fuel jsonFile j l).
Proof.
  induction fuel as [|fuel IH]; intros j l Hj Hf; [lia|].
  cbn [numberLoop].
  destruct (index_cases jsonFile j Hj) as [(b & Lt & E & _)|[_ P]].
  2:{ right. red. rewrite P. reflexivity. }
  rewrite E. cbn [bind].
  destruct (validNextNumCharacter _).
  2:{ left. eexists. split; [reflexivity | apply extends_current]. }
  loop_continues IH j b l.
Qed.

Lemma unicodeLoop_total (n : nat) :
  forall (j : nat) (l : locals),
    (j <= List.length jsonFile)%nat ->
    (exists l', unicodeLoop n jsonFile j l = Ok l' /\ extends l l')
    \/ panicsAtEnd jsonFile (unicodeLoop n jsonFile j l).
Proof.
  induction n as [|n IH]; intros j l Hj; cbn [unicodeLoop].
  { left. eexists. split; [reflexivity | apply extends_refl]. }
  destruct (index_cases jsonFile j Hj) as [(b & Lt & E & _)|[_ P]].
  2:{ right. red. rewrite P. reflexivity. }
  rewrite E. cbn [bind].
  loop_continues IH j b l.
Qed.

End Loops.

Lemma indexLast_Ok (s : gostring) :
  s <> [] -> exists b, indexLast s = Ok b.
Proof.
  intros H. destruct s as [|x s]; [congruence|]. unfold indexLast.
  destruct (index_Ok (x :: s) (List.length (x :: s) - 1)) as (b & E & _);
    [simpl; lia | eauto].
Qed.

Lemma lastToken_In (tokenArray : list Token) (t : Token) :
  lastToken tokenArray = Some t -> In t tokenArray.
Proof. apply nth_error_In. Qed.

Lemma checkPrevious_cases (tokenArray : list Token) (l l' : locals) :
  checkPrevious tokenArray l = Ok l' ->
  l' = l
  \/ l' = setIsString true l
  \/ (l' = setKind StringClose (setIsString true l)
      /\ currentCharacter l = dquote).
Proof.
  unfold checkPrevious.
  destruct (lastToken tokenArray) as [t|]; [|intros H; inversion H; auto].
  destruct (indexLast (content t)) as [b| |]; cbn [bind]; try discriminate.
  destruct (kind t =? StringRegular).
  { destruct (streq (string_of_byte b) dquote); cbn [negb andb];
      [destruct (_ =? _)%nat|]; intros H; inversion H; auto. }
  destruct (kind t =? StringEscaped); [|intros H; inversion H; auto].
  destruct (streq (currentCharacter (setIsString true l)) dquote) eqn:S;
    intros H; inversion H; auto.
  right. right. split; [reflexivity|].
  apply streq_true in S. destruct l; exact S.
Qed.

Lemma checkPrevious_Ok (tokenArray : list Token) (l : locals) :
  Forall nonempty tokenArray -> exists l', checkPrevious tokenArray l = Ok l'.
Proof.
  intros N. unfold checkPrevious.
  destruct (lastToken tokenArray) as [t|] eqn:E; [|eauto].
  apply lastToken_In in E. rewrite Forall_forall in N.
  destruct (indexLast_Ok (content t) (N t E)) as (b & ->). cbn [bind].
  repeat match goal with
  | |- context [if ?c then _ else _] => destruct c
  end; eauto.
Qed.

Lemma unicodeLoop_exact (jsonFile : list byte) (n : nat) :
  forall (j : nat) (l l' : locals),
    unicodeLoop n jsonFile j l = Ok l' ->
    exists c bs,
      List.length bs = n
      /\ (forall k, (k < n)%nat -> nth_error bs k = nth_error jsonFile (j + k))
      /\ l' = mkLocals c (tokenContent l ++ text bs)
                       (tokenKind l) (tokenLength l + n) (isToken l)
                       (isString l) (isStringRegular l) (isNumber l).
Proof.
  induction n as [|n IH]; intros j l l' H; cbn [unicodeLoop] in H.
  - inversion H; subst. exists (currentCharacter l'), []. destruct l'.
    unfold text. simpl.
    rewrite app_nil_r, Nat.add_0_r. split; [reflexivity|].
    split; [intros; lia | reflexivity].
  - unfold index in H. destruct (nth_error jsonFile j) as [b|] eqn:E;
      [|discriminate].
    cbn [bind] in H. apply IH in H. destruct H as (c & bs & L & N & ->).
    exists c, (b :: bs). split; [simpl; lia|]. split.
    + intros [|k] Hk; simpl.
      * rewrite Nat.add_0_r. auto.
      * rewrite Nat.add_succ_r. apply N. lia.
    + destruct l. unfold text. simpl. rewrite <- !app_assoc. f_equal; lia.
Qed.

Lemma classifyCharacter_cases (b : byte) :
  classified b (classifyCharacter (defaults (string_of_byte b))).
Proof.
  pose proof (string_of_byte_nonempty b) as NE.
  unfold classifyCharacter. cbn [isString defaults negb currentCharacter].
  repeat match goal with
  | |- context [if streq ?x ?y then _ else _] =>
    destruct (streq x y);
      [cbn; first [ apply classified_token; cbn;
                      (exact NE || discriminate || lia)
                  | apply classified_string ] |]
  | |- context [if ?c then _ else _] =>
    destruct c; [cbn; apply classified_number|]
  end.
  cbn. apply classified_skip.
Qed.

Lemma classifyCharacter_isString (l : locals) :
  isString (classifyCharacter l) = isString l.
Proof.
  unfold classifyCharacter. destruct (isString l) eqn:S; cbn [negb];
    [exact S|].
  repeat match goal with
  | |- context [if ?c then _ else _] => destruct c
  end; destruct l; exact S.
Qed.

Lemma classifyCharacter_inString (l : locals) :
  isString l = true -> classifyCharacter l = l.
Proof. intros S. unfold classifyCharacter. rewrite S. reflexivity. Qed.

Section ClassifyString.

Variables (jsonFile : list byte) (i : nat) (l : locals).

Lemma classifyString_outside :
  isString l = false -> classifyString jsonFile i l = Ok l.
Proof. intros S. unfold classifyString. rewrite S. reflexivity. Qed.

Lemma classifyString_close :
  isString l = true -> currentCharacter l = dquote ->
  tokenKind l = StringClose ->
  classifyString jsonFile i l = Ok l.
Proof.
  intros S C K. unfold classifyString. rewrite S, C, K. reflexivity.
Qed.

Lemma classifyString_quote :
  isString l = true -> currentCharacter l = dquote ->
  tokenKind l = 0 ->
  classifyString jsonFile i l
  = Ok (setIsStringRegular true (setKind StringRegular l)).
Proof.
  intros S C K. unfold classifyString. rewrite S, C, K. reflexivity.
Qed.

Lemma classifyString_plain :
  isString l = true ->
  streq (currentCharacter l) dquote = false ->
  streq (currentCharacter l) backslash = false ->
  classifyString jsonFile i l
  = Ok (setIsStringRegular true (setKind StringRegular l)).
Proof.
  intros S Q B. unfold classifyString. rewrite S, Q, B. reflexivity.
Qed.

Lemma classifyString_escape :
  isString l = true -> currentCharacter l = backslash ->
  classifyString jsonFile i l
  = (b <- index jsonFile (i + 1) ;;
     let l' := setCurrentCharacter (string_of_byte b)
                                   (setKind StringEscaped l) in
     if Byte.eqb b "u" then unicodeLoop 5 jsonFile (i + 1) l'
     else Ok (appendCharacter l')).
Proof.
  intros S C. unfold classifyString. rewrite S, C.
  change (streq backslash dquote) with false.
  change (streq backslash backslash) with true. cbv iota.
  destruct (index jsonFile (i + 1)) as [b| |]; cbn [bind]; try reflexivity.
  replace (currentCharacter
             (setCurrentCharacter (string_of_byte b)
                (setKind StringEscaped l))) with (string_of_byte b)
    by (destruct l; reflexivity).
  change (lit "u") with ["u"%byte].
  rewrite (streq_string_of_byte b "u") by (vm_compute; reflexivity).
  destruct (Byte.eqb b "u"); [reflexivity|].
  destruct l; reflexivity.
Qed.

End ClassifyString.

(** The cases of [classify]. *)
Lemma classify_cases (jsonFile : list byte) (i : nat) (tokenArray : list Token)
      (l : locals) :
  classify jsonFile i tokenArray = Ok l ->
  exists b, nth_error jsonFile i = Some b /\ classified b l.
Proof.
  intros H. unfold classify, index in H.
  destruct (nth_error jsonFile i) as [b|] eqn:Eb; [|discriminate].
  cbn [bind] in H. exists b. split; [reflexivity|].
  pose proof (string_of_byte_nonempty b) as NE.
  destruct (checkPrevious tokenArray (defaults (string_of_byte b)))
    as [l0| |] eqn:C; cbn [bind] in H; try discriminate.
  apply checkPrevious_cases in C. destruct C as [-> | [-> | [-> C]]].
  - (* outside a string *)
    rewrite classifyString_outside in H
      by (rewrite classifyCharacter_isString; reflexivity).
    injection H as <-.
    pose proof (classifyCharacter_cases b) as K.
    pose proof (classifyCharacter_isString (defaults (string_of_byte b))) as I.
    inversion K as [s k n str S Hn Hk E| E | str E | E | c s n S Hn E];
      rewrite <- E in I; discriminate || (constructor; assumption).
  - (* inside a string *)
    rewrite classifyCharacter_inString in H by reflexivity.
    destruct (streq (string_of_byte b) backslash) eqn:B.
    2:{ destruct (streq (string_of_byte b) dquote) eqn:Q.
        - apply streq_true in Q.
          rewrite classifyString_quote in H by (reflexivity || exact Q).
          injection H as <-. apply classified_string.
        - rewrite classifyString_plain in H by (reflexivity || assumption).
          injection H as <-. apply classified_string. }
    apply streq_true in B.
    rewrite classifyString_escape in H by (reflexivity || exact B).
    unfold index in H.
    destruct (nth_error jsonFile (i + 1)) as [b1|] eqn:E1; [|discriminate].
    cbn [bind] in H. cbv zeta in H.
    destruct (Byte.eqb b1 "u") eqn:U.
    + apply unicodeLoop_exact in H. destruct H as (c & bs & L & Nth & ->).
      apply classified_escape; [|cbn; lia].
      change (escapeSequence (string_of_byte b ++ text bs)). rewrite B.
      destruct bs as [|b1' bs]; [discriminate|].
      specialize (Nth 0%nat ltac:(lia)). rewrite Nat.add_0_r, E1 in Nth.
      inversion Nth; subst b1'.
      exists b1, bs. split; [reflexivity|]. rewrite U. simpl in L. lia.
    + injection H as <-. apply classified_escape; [|cbn; lia].
      change (escapeSequence (string_of_byte b ++ string_of_byte b1)).
      rewrite B. exists b1, []. rewrite U. unfold text. cbn [map List.concat].
      rewrite app_nil_r. split; reflexivity.
  - (* the quote that closes a string after an escape sequence *)
    rewrite classifyCharacter_inString in H by reflexivity.
    rewrite classifyString_close in H by (reflexivity || exact C).
    injection H as <-.
    apply classified_token; cbn; (exact NE || discriminate || lia).
Qed.

Lemma classify_total (jsonFile : list byte) (i : nat)
      (tokenArray : list Token) :
  (i < List.length jsonFile)%nat ->
  Forall nonempty tokenArray ->
  panicsAtEnd jsonFile (classify jsonFile i tokenArray)
  \/ exists l, classify jsonFile i tokenArray = Ok l.
Proof.
  intros Hi N. unfold classify.
  destruct (index_Ok jsonFile i Hi) as (b & -> & _). cbn [bind].
  destruct (checkPrevious_Ok tokenArray (defaults (string_of_byte b)) N)
    as (l0 & ->). cbn [bind].
  unfold classifyString.
  destruct (isString (classifyCharacter l0)); [|eauto].
  destruct (streq _ dquote); [destruct (negb _); eauto|].
  destruct (streq _ backslash); [|eauto].
  destruct (index_cases jsonFile (i + 1)) as [(b1 & Lt & -> & E1)|[_ P]];
    [lia | | left; red; rewrite P; reflexivity].
  cbn [bind]. destruct (streq _ (lit "u")); [|eauto].
  match goal with
  | |- context [unicodeLoop 5 jsonFile (i + 1) ?l] =>
    destruct (unicodeLoop_total jsonFile 5 (i + 1) l) as [(l' & -> & _) | P];
      [lia | eauto | left; exact P]
  end.
Qed.

Lemma app_nonempty (a b : gostring) : a <> [] -> a ++ b <> [].
Proof. intros H E. apply app_eq_nil in E. tauto. Qed.

(** The end of an iteration once the token is classified: a loop has run
    ([extends]) or not, and the token is appended. *)
Ltac token_done :=
  right; eexists; split;
  [| right; eexists; split; [reflexivity|]; split;
     [unfold nonempty; cbn [content];
      first [assumption | apply app_nonempty; assumption
            | apply string_of_byte_nonempty
            | apply app_nonempty; apply string_of_byte_nonempty]
     | cbn [kind content]; let H := fresh in intros H;
       first [assumption | congruence
             | exfalso; revert H; vm_compute; discriminate]]];
  [lia|..].

Ltac loop_done L :=
  destruct L as [(?l & -> & (?c & ?ext & ?n & ->)) | ?P];
  [lia | lia | cbn; token_done
  | left; red; rewrite P; reflexivity].

Lemma iteration_spec (jsonFile : list byte) (i : nat)
      (tokenArray : list Token) :
  (i < List.length jsonFile)%nat ->
  Forall nonempty tokenArray ->
  panicsAtEnd jsonFile (iteration jsonFile i tokenArray)
  \/ exists n,
      (1 <= n)%nat
      /\ (iteration jsonFile i tokenArray = Ok (tokenArray, (i + n)%nat)
          \/ exists t,
              iteration jsonFile i tokenArray
              = Ok (tokenArray ++ [t], (i + n)%nat)
              /\ nonempty t
              /\ (kind t = StringEscaped -> escapeSequence (content t))).
Proof.
  intros Hi N. unfold iteration.
  destruct (classify_total jsonFile i tokenArray Hi N) as [P | (l & E)];
    [left; red; rewrite P; reflexivity|].
  rewrite E. cbn [bind].
  apply classify_cases in E. destruct E as (b & Eb & K).
  inversion K as [s k n str S Hn Hk E| E | str E | E | c s n S Hn E];
    subst l; cbn.
  - token_done.
  - right. exists 1%nat. split; [lia|]. left. reflexivity.
  - loop_done (stringRegularLoop_total jsonFile
                 (List.length jsonFile - i) (i + 1)
                 (mkLocals (string_of_byte b) (string_of_byte b) StringRegular
                           1 true str true false)).
  - loop_done (numberLoop_total jsonFile
                 (List.length jsonFile - i) (i + 1)
                 (mkLocals (string_of_byte b) (string_of_byte b) Number
                           1 true false false true)).
  - assert (s <> []) by (destruct S as (? & ? & -> & _); discriminate).
    token_done.
Qed.

Lemma getTokensFrom_spec (jsonFile : list byte) (fuel : nat) :
  forall (i : nat) (tokenArray : list Token),
    (List.length jsonFile - i <= fuel)%nat ->
    Forall wellFormed tokenArray ->
    panicsAtEnd jsonFile (getTokensFrom fuel jsonFile i tokenArray)
    \/ exists tokenArray',
        getTokensFrom fuel jsonFile i tokenArray = Ok tokenArray'
        /\ Forall wellFormed tokenArray'.
Proof.
  induction fuel as [|fuel IH]; intros i tokenArray Hf W;
    cbn [getTokensFrom];
    destruct (Nat.ltb_spec i (List.length jsonFile)) as [Lt|Ge];
    try lia; try (right; eauto; fail).
  assert (N : Forall nonempty tokenArray)
    by (eapply Forall_impl; [|exact W]; intros t [H _]; exact H).
  destruct (iteration_spec jsonFile i tokenArray Lt N)
    as [P | (n & Hn & [E | (t & E & Nt & Et)])].
  - left. red. rewrite P. reflexivity.
  - rewrite E. cbn [bind fst snd]. apply IH; [lia | exact W].
  - rewrite E. cbn [bind fst snd]. apply IH; [lia|].
    apply Forall_app. split; [exact W|]. constructor; [|constructor].
    split; assumption.
Qed.

Lemma validRune_byteval (b : byte) : validRune (byteval b).
Proof.
  pose proof (byteval_range b).
  unfold validRune, utf8.maxRune, utf8.surrogateMin, utf8.surrogateMax. lia.
Qed.

Lemma rangeString_string_of_byte (bs : list byte) :
  utf8.rangeString (text bs) = map byteval bs.
Proof.
  unfold text, string_of_byte, string_of_rune.
  rewrite <- (map_map byteval utf8.encoderune).
  apply rangeString_concat_encoderune.
  apply Forall_forall. intros r I. apply in_map_iff in I.
  destruct I as (b & <- & _). apply validRune_byteval.
Qed.

Lemma escapeSequence_runes (s : gostring) :
  escapeSequence s ->
  (exists tail, s = x5c :: tail)
  /\ exists second rest,
      utf8.rangeString s = 0x5C :: second :: rest
      /\ utf8.RuneCountInString s = if second =? 0x75 then 6%nat else 2%nat.
Proof.
  intros (b & bs & -> & L). split; [eexists; reflexivity|].
  exists (byteval b), (map byteval bs).
  assert (R : utf8.rangeString
                (backslash ++ text (b :: bs))
              = 0x5C :: map byteval (b :: bs)).
  { change backslash with (utf8.encoderune 0x5C).
    rewrite rangeString_encoderune, rangeString_string_of_byte; [reflexivity|].
    unfold validRune, utf8.maxRune, utf8.surrogateMin, utf8.surrogateMax. lia. }
  split; [exact R|]. unfold utf8.RuneCountInString. rewrite R.
  cbn [List.length map]. rewrite length_map, L.
  destruct (Byte.eqb b "u") eqn:U.
  - apply byte_eqb_true in U. subst b. reflexivity.
  - destruct (Z.eqb_spec (byteval b) 0x75) as [E|_]; [|reflexivity].
    change 0x75 with (byteval "u") in E. apply byteval_inj in E. subst b.
    discriminate.
Qed.

(** ** Runs of the inner loops *)

Lemma nth_error_after (pre : list byte) (b : byte) (post : list byte) :
  nth_error (pre ++ b :: post) (List.length pre) = Some b.
Proof.
  rewrite nth_error_app2, Nat.sub_diag by lia. reflexivity.
Qed.

Lemma index_after (pre : list byte) (b : byte) (post : list byte) :
  index (pre ++ b :: post) (List.length pre) = Ok b.
Proof. unfold index. rewrite nth_error_after. reflexivity. Qed.

Lemma index_end (s : list byte) :
  index s (List.length s)
  = IndexOutOfRange (Z.of_nat (List.length s)) (List.length s).
Proof. apply index_panic. lia. Qed.

Lemma plain_streq (b : byte) :
  plain b ->
  streq (string_of_byte b) dquote = false
  /\ streq (string_of_byte b) backslash = false.
Proof.
  intros [Q B]. unfold dquote, backslash.
  rewrite !streq_string_of_byte by (vm_compute; reflexivity).
  split; apply not_true_is_false; rewrite byte_eqb_true; assumption.
Qed.

Lemma text_cons (b : byte) (bs : list byte) :
  text (b :: bs) = string_of_byte b ++ text bs.
Proof. reflexivity. Qed.

(** A plain run that is ended by a quote or a backslash. *)
Lemma stringRegularLoop_run (p : list byte) :
  forall (pre post : list byte) (c : byte) (fuel : nat) (l : locals),
    Forall plain p -> c = x22 \/ c = x5c ->
    (List.length p < fuel)%nat ->
    stringRegularLoop fuel (pre ++ p ++ c :: post) (List.length pre) l
    = Ok (mkLocals (string_of_byte c)
            (tokenContent l ++ text p
             ++ (if Byte.eqb c x22 then dquote else []))
            (tokenKind l)
            (tokenLength l + List.length p
             + (if Byte.eqb c x22 then 1 else 0))
            (isToken l) (isString l) (isStringRegular l) (isNumber l)).
Proof.
  induction p as [|b p IH]; intros pre post c fuel l P C F;
    (destruct fuel as [|fuel]; [simpl in F; lia|]); cbn [stringRegularLoop].
  - cbn [app]. rewrite index_after. cbn [bind].
    destruct l as [cc s k n t st sr nu].
    destruct C as [-> | ->];
      unfold appendCharacter, setContent, setCurrentCharacter; cbn;
      rewrite ?app_nil_r; f_equal; f_equal; lia.
  - inversion P as [|? ? Pb Pp]; subst.
    change (pre ++ (b :: p) ++ c :: post)
      with (pre ++ b :: (p ++ c :: post)).
    rewrite index_after. cbn [bind].
    destruct (plain_streq b Pb) as [Q B].
    replace (currentCharacter (setCurrentCharacter (string_of_byte b) l))
      with (string_of_byte b) by (destruct l; reflexivity).
    rewrite Q, B.
    replace (pre ++ b :: p ++ c :: post)
      with ((pre ++ [b]) ++ p ++ c :: post)
      by (rewrite <- app_assoc; reflexivity).
    replace (S (List.length pre)) with (List.length (pre ++ [b]))
      by (rewrite length_app; simpl; lia).
    rewrite IH by (auto; simpl in F; lia).
    destruct l as [cc s k n t st sr nu].
    unfold appendCharacter, setContent, setCurrentCharacter.
    cbn [currentCharacter tokenContent tokenKind tokenLength isToken isString
         isStringRegular isNumber List.length].
    rewrite text_cons, <- !app_assoc. f_equal. f_equal; lia.
Qed.

(** A plain run that reaches the end of the input. *)
Lemma stringRegularLoop_off (p : list byte) :
  forall (pre : list byte) (fuel : nat) (l : locals),
    Forall plain p -> (List.length p < fuel)%nat ->
    panicsAtEnd (pre ++ p)
                (stringRegularLoop fuel (pre ++ p) (List.length pre) l).
Proof.
  induction p as [|b p IH]; intros pre fuel l P F;
    (destruct fuel as [|fuel]; [simpl in F; lia|]); cbn [stringRegularLoop].
  - rewrite app_nil_r, index_end. reflexivity.
  - inversion P as [|? ? Pb Pp]; subst.
    rewrite index_after. cbn [bind].
    destruct (plain_streq b Pb) as [Q B].
    replace (currentCharacter (setCurrentCharacter (string_of_byte b) l))
      with (string_of_byte b) by (destruct l; reflexivity).
    rewrite Q, B.
    replace (pre ++ b :: p) with ((pre ++ [b]) ++ p)
      by (rewrite <- app_assoc; reflexivity).
    replace (S (List.length pre)) with (List.length (pre ++ [b]))
      by (rewrite length_app; simpl; lia).
    apply IH; [assumption | simpl in F; lia].
Qed.

(** A number that reaches the end of the input. *)
Lemma numberLoop_off (p : list byte) :
  forall (pre : list byte) (fuel : nat) (l : locals),
    Forall numeric p -> (List.length p < fuel)%nat ->
    panicsAtEnd (pre ++ p) (numberLoop fuel (pre ++ p) (List.length pre) l).
Proof.
  induction p as [|b p IH]; intros pre fuel l P F;
    (destruct fuel as [|fuel]; [simpl in F; lia|]); cbn [numberLoop].
  - rewrite app_nil_r, index_end. reflexivity.
  - inversion P as [|? ? Pb Pp]; subst.
    rewrite index_after. cbn [bind].
    replace (currentCharacter (setCurrentCharacter (string_of_byte b) l))
      with (string_of_byte b) by (destruct l; reflexivity).
    rewrite Pb.
    replace (pre ++ b :: p) with ((pre ++ [b]) ++ p)
      by (rewrite <- app_assoc; reflexivity).
    replace (S (List.length pre)) with (List.length (pre ++ [b]))
      by (rewrite length_app; simpl; lia).
    apply IH; [assumption | simpl in F; lia].
Qed.

(** An escape sequence that is cut short by the end of the input. *)
Lemma unicodeLoop_off (p : list byte) :
  forall (pre : list byte) (n : nat) (l : locals),
    (List.length p < n)%nat ->
    panicsAtEnd (pre ++ p) (unicodeLoop n (pre ++ p) (List.length pre) l).
Proof.
  induction p as [|b p IH]; intros pre n l F;
    (destruct n as [|n]; [simpl in F; lia|]); cbn [unicodeLoop].
  - rewrite app_nil_r, index_end. reflexivity.
  - rewrite index_after. cbn [bind].
    replace (pre ++ b :: p) with ((pre ++ [b]) ++ p)
      by (rewrite <- app_assoc; reflexivity).
    replace (S (List.length pre)) with (List.length (pre ++ [b]))
      by (rewrite length_app; simpl; lia).
    apply IH. simpl in F; lia.
Qed.

(** ** The token at the cursor *)

Lemma checkPrevious_currentCharacter (tokenArray : list Token) (l l' : locals) :
  checkPrevious tokenArray l = Ok l' ->
  currentCharacter l' = currentCharacter l.
Proof.
  intros H. apply checkPrevious_cases in H.
  destruct H as [-> | [-> | [-> _]]]; destruct l; reflexivity.
Qed.

Lemma classifyString_isString (jsonFile : list byte) (i : nat) (l l' : locals) :
  classifyString jsonFile i l = Ok l' -> isString l' = isString l.
Proof.
  unfold classifyString. destruct (isString l) eqn:S.
  2:{ intros H. injection H as <-. exact S. }
  destruct (streq _ dquote).
  { destruct (negb _); intros H; injection H as <-; destruct l; exact S. }
  destruct (streq _ backslash).
  2:{ intros H; injection H as <-; destruct l; exact S. }
  destruct (index jsonFile (i + 1)) as [b| |]; cbn [bind]; try discriminate.
  destruct (streq _ (lit "u")).
  - intros H. apply unicodeLoop_exact in H.
    destruct H as (c & bs & _ & _ & ->). destruct l; exact S.
  - intros H; injection H as <-; destruct l; exact S.
Qed.

(** Outside a string the token is classified by its first character alone. *)
Lemma classify_outside (jsonFile : list byte) (i : nat)
      (tokenArray : list Token) (l : locals) :
  classify jsonFile i tokenArray = Ok l -> isString l = false ->
  exists b, nth_error jsonFile i = Some b
            /\ l = classifyCharacter (defaults (string_of_byte b)).
Proof.
  intros H S. unfold classify, index in H.
  destruct (nth_error jsonFile i) as [b|] eqn:Eb; [|discriminate].
  cbn [bind] in H. exists b. split; [reflexivity|].
  destruct (checkPrevious tokenArray (defaults (string_of_byte b)))
    as [l0| |] eqn:C; cbn [bind] in H; try discriminate.
  pose proof (classifyString_isString _ _ _ _ H) as I.
  rewrite classifyCharacter_isString, S in I.
  apply checkPrevious_cases in C.
  destruct C as [-> | [-> | [-> _]]]; try discriminate.
  rewrite classifyString_outside in H
    by (rewrite classifyCharacter_isString; reflexivity).
  injection H as <-. reflexivity.
Qed.

Lemma nth_error_split_skipn (jsonFile : list byte) (i : nat) (b : byte) :
  nth_error jsonFile i = Some b ->
  jsonFile = firstn (S i) jsonFile ++ skipn (S i) jsonFile
  /\ List.length (firstn (S i) jsonFile) = (i + 1)%nat
  /\ (List.length (skipn (S i) jsonFile) < List.length jsonFile - i)%nat.
Proof.
  intros H.
  assert (L : (i < List.length jsonFile)%nat)
    by (apply nth_error_Some; congruence).
  split; [symmetry; apply firstn_skipn|].
  rewrite length_firstn, length_skipn. lia.
Qed.

(** ** Reads past the end of the input *)

Lemma getTokensFrom_panics (jsonFile : list byte) (i fuel : nat)
      (tokenArray : list Token) (b : byte) :
  nth_error jsonFile i = Some b ->
  panicsAtEnd jsonFile (iteration jsonFile i tokenArray) ->
  panicsAtEnd jsonFile (getTokensFrom (S fuel) jsonFile i tokenArray).
Proof.
  intros Eb P. cbn [getTokensFrom].
  assert (L : (i < List.length jsonFile)%nat)
    by (apply nth_error_Some; congruence).
  destruct (Nat.ltb_spec i (List.length jsonFile)); [|lia].
  red. rewrite P. reflexivity.
Qed.

Lemma number_reads_past_end (jsonFile : list byte) (i fuel : nat)
      (tokenArray : list Token) (l : locals) :
  classify jsonFile i tokenArray = Ok l -> isNumber l = true ->
  Forall numeric (skipn (S i) jsonFile) ->
  panicsAtEnd jsonFile (getTokensFrom (S fuel) jsonFile i tokenArray).
Proof.
  intros H N F. destruct (classify_cases _ _ _ _ H) as (b & Eb & K).
  apply (getTokensFrom_panics _ _ _ _ b Eb).
  unfold iteration. rewrite H. cbn [bind].
  inversion K as [s k n str S Hn Hk E| E | str E | E | c s n S Hn E];
    subst l; try discriminate. cbn [isStringRegular isNumber bind].
  destruct (nth_error_split_skipn jsonFile i b Eb) as (Ej & Lpre & Lrest).
  match goal with
  | |- context [numberLoop ?f jsonFile (i + 1) ?l] =>
    pose proof (numberLoop_off _ (firstn (S i) jsonFile) f l F Lrest) as P
  end.
  rewrite <- Ej, Lpre in P. red. rewrite P. reflexivity.
Qed.

Lemma plain_run_reads_past_end (jsonFile : list byte) (i fuel : nat)
      (tokenArray : list Token) (l : locals) :
  classify jsonFile i tokenArray = Ok l -> isStringRegular l = true ->
  Forall plain (skipn (S i) jsonFile) ->
  panicsAtEnd jsonFile (getTokensFrom (S fuel) jsonFile i tokenArray).
Proof.
  intros H N F. destruct (classify_cases _ _ _ _ H) as (b & Eb & K).
  apply (getTokensFrom_panics _ _ _ _ b Eb).
  unfold iteration. rewrite H. cbn [bind].
  inversion K as [s k n str S Hn Hk E| E | str E | E | c s n S Hn E];
    subst l; try discriminate. cbn [isStringRegular isNumber bind].
  destruct (nth_error_split_skipn jsonFile i b Eb) as (Ej & Lpre & Lrest).
  match goal with
  | |- context [stringRegularLoop ?f jsonFile (i + 1) ?l] =>
    pose proof (stringRegularLoop_off _ (firstn (S i) jsonFile) f l F Lrest)
      as P
  end.
  rewrite <- Ej, Lpre in P. red. rewrite P. reflexivity.
Qed.

Lemma escape_reads_past_end (jsonFile : list byte) (i fuel : nat)
      (tokenArray : list Token) (l : locals) :
  nth_error jsonFile i = Some x5c ->
  checkPrevious tokenArray (defaults backslash) = Ok l ->
  isString l = true ->
  skipn (S i) jsonFile = []
  \/ (exists tail, skipn (S i) jsonFile = "u"%byte :: tail
                   /\ (List.length tail < 4)%nat) ->
  panicsAtEnd jsonFile (getTokensFrom (S fuel) jsonFile i tokenArray).
Proof.
  intros Eb H IS T. apply (getTokensFrom_panics _ _ _ _ x5c Eb).
  destruct (nth_error_split_skipn jsonFile i x5c Eb) as (Ej & Lpre & Lrest).
  unfold iteration, classify, index. rewrite Eb. cbn [bind].
  change (string_of_byte x5c) with backslash. rewrite H. cbn [bind].
  rewrite classifyCharacter_inString by exact IS.
  rewrite classifyString_escape
    by (exact IS || (rewrite (checkPrevious_currentCharacter _ _ _ H);
                    reflexivity)).
  destruct T as [T | (tail & T & Lt)]; rewrite T in *.
  - rewrite app_nil_r in Ej. rewrite <- Ej in Lpre. rewrite <- Lpre.
    rewrite index_end. reflexivity.
  - assert (I : index jsonFile (i + 1) = Ok "u"%byte).
    { rewrite Ej at 1. rewrite <- Lpre. apply index_after. }
    rewrite I. cbn [bind]. cbv zeta. change (Byte.eqb "u" "u") with true.
    cbv iota.
    match goal with
    | |- context [unicodeLoop 5 jsonFile (i + 1) ?l] =>
      pose proof (unicodeLoop_off ("u"%byte :: tail) (firstn (S i) jsonFile)
                                  5 l ltac:(simpl; lia)) as P
    end.
    rewrite <- Ej, Lpre in P. red. rewrite P. reflexivity.
Qed.

Lemma classify_numberStart (b : byte) (p : list byte) :
  numberStart b ->
  classify (b :: p) 0 []
  = Ok (mkLocals (string_of_byte b) (string_of_byte b) Number 1 true false
                 false true).
Proof.
  intros N. unfold numberStart in N. cbn in N.
  repeat (destruct N as [<- | N]; [vm_compute; reflexivity|]).
  contradiction.
Qed.

(** ** Indentation *)

Lemma indentStringOf_tabs (indentationLevel : Z) :
  indentStringOf indentationLevel
  = List.repeat x09 (Z.to_nat (indentationLevel - 1)).
Proof.
  unfold indentStringOf.
  induction (Z.to_nat (indentationLevel - 1)) as [|n IH]; [reflexivity|].
  simpl. rewrite IH. reflexivity.
Qed.

(** ** Escape sequences of ASCII characters *)

Lemma text_ascii (bs : list byte) :
  Forall (fun b => byteval b < 0x80) bs -> text bs = bs.
Proof.
  induction 1 as [|b bs A _ IH]; [reflexivity|].
  rewrite text_cons, IH, string_of_byte_ascii by exact A. reflexivity.
Qed.

Lemma escapeSequence_bytes (s : gostring) :
  escapeSequence s ->
  exists b bs,
    s = backslash ++ text (b :: bs)
    /\ List.length bs = (if Byte.eqb b "u" then 4%nat else 0%nat)
    /\ (Forall (fun x => byteval x < 0x80) (b :: bs) ->
        List.length s = if Byte.eqb b "u" then 6%nat else 2%nat).
Proof.
  intros (b & bs & -> & L). exists b, bs. split; [reflexivity|].
  split; [exact L|]. intros A. rewrite (text_ascii _ A).
  cbn [app List.length backslash]. rewrite L.
  destruct (Byte.eqb b "u"); reflexivity.
Qed.

(** * The claims of the specification *)

(** ** C1: the tokens of a string literal that ends in plain text *)

(** C1 as stated fails: the two-token sequences it gives for the literal
    [ab] in quotes and for the empty string literal are not what [getTokens]
    returns. *)
Lemma getTokens_string_literal_two_tokens_fails :
  getTokens Examples.string_ab
  <> Ok [mkToken dquote StringRegular;
         mkToken (lit "ab" ++ dquote) StringRegular]
  /\ getTokens Examples.string_empty
     <> Ok [mkToken dquote StringRegular; mkToken dquote StringRegular].
Proof. split; vm_compute; discriminate. Qed.

(** C1, amended.  Line 132 sets [isStringRegular] for the opening quote, so
    the loop of lines 195-211 runs at once: an opening quote outside a string
    is one StringRegular token together with the plain run [p] that follows
    it, and with the closing quote when that run ends at a quote [c]; when it
    ends at a backslash the token is the quote and the run (the quote alone
    when the run is empty).  The literal [ab] in quotes and the empty string
    literal are one StringRegular token each, with contents of four and of
    two characters. *)
Theorem getTokens_string_literal_one_token :
  (forall (pre p post : list byte) (c : byte) (tokenArray : list Token)
          (l : locals),
      classify (pre ++ x22 :: p ++ c :: post) (List.length pre) tokenArray
      = Ok l ->
      isString l = false ->
      Forall plain p ->
      c = x22 \/ c = x5c ->
      iteration (pre ++ x22 :: p ++ c :: post) (List.length pre) tokenArray
      = Ok (tokenArray
              ++ [mkToken (dquote ++ text p
                           ++ (if Byte.eqb c x22 then dquote else []))
                          StringRegular],
            (List.length pre + (1 + List.length p
                                + (if Byte.eqb c x22 then 1 else 0)))%nat))
  /\ getTokens Examples.string_ab
     = Ok [mkToken (dquote ++ lit "ab" ++ dquote) StringRegular]
  /\ getTokens Examples.string_empty
     = Ok [mkToken (dquote ++ dquote) StringRegular].
Proof.
  split; [|split; vm_compute; reflexivity].
  intros pre p post c tokenArray l H S P C.
  unfold iteration. rewrite H. cbn [bind].
  destruct (classify_outside _ _ _ _ H S) as (b & Eb & ->).
  rewrite nth_error_after in Eb. injection Eb as <-.
  change (classifyCharacter (defaults (string_of_byte x22)))
    with (mkLocals dquote dquote StringRegular 1 true false true false).
  cbn [isStringRegular].
  replace (List.length pre + 1)%nat with (List.length (pre ++ [x22]))
    by (rewrite length_app; reflexivity).
  replace (pre ++ x22 :: p ++ c :: post)
    with ((pre ++ [x22]) ++ p ++ c :: post)
    by (rewrite <- app_assoc; reflexivity).
  rewrite stringRegularLoop_run; [|assumption|assumption|].
  2:{ rewrite !length_app. simpl. lia. }
  cbn [bind isNumber isToken tokenContent tokenKind tokenLength].
  reflexivity.
Qed.

(** The hypotheses of the theorem at the literal [ab] in quotes, at the start
    of the input. *)
Lemma getTokens_string_literal_one_token_witness :
  classify Examples.string_ab 0 []
  = Ok (mkLocals dquote dquote StringRegular 1 true false true false)
  /\ Forall plain (lit "ab")
  /\ iteration Examples.string_ab 0 []
     = Ok ([mkToken (dquote ++ lit "ab" ++ dquote) StringRegular], 4%nat).
Proof.
  assert (H1 : classify ([] ++ x22 :: lit "ab" ++ x22 :: [])
                        (List.length (@nil byte)) []
               = Ok (mkLocals dquote dquote StringRegular 1 true false true
                              false))
    by (vm_compute; reflexivity).
  assert (H3 : Forall plain (lit "ab"))
    by (repeat constructor; discriminate).
  split; [exact H1 | split; [exact H3|]].
  pose proof (proj1 getTokens_string_literal_one_token
                    [] (lit "ab") [] x22 [] _ H1 eq_refl H3
                    (or_introl eq_refl)) as W.
  vm_compute in W. vm_compute. exact W.
Defined.

(** ** C2: the tokens of a small object *)

(** C2 as stated fails: the kinds are not the fifteen listed ones. *)
Lemma getTokens_object_fifteen_kinds_fails :
  kindsOf (getTokens Examples.object)
  <> Ok [ObjectOpen; StringRegular; StringRegular; DelimiterPair; Number;
         DelimiterMember; StringRegular; StringRegular; DelimiterPair;
         ArrayOpen; LiteralBoolTrue; DelimiterMember; LiteralNull; ArrayClose;
         ObjectClose].
Proof. vm_compute. discriminate. Qed.

(** C2, amended.  The input with the two members [a] and [b] of the example
    yields thirteen tokens: each of the two keys is one StringRegular token
    that holds both quotes (see C1). *)
Theorem getTokens_object_thirteen_kinds :
  kindsOf (getTokens Examples.object)
  = Ok [ObjectOpen; StringRegular; DelimiterPair; Number; DelimiterMember;
        StringRegular; DelimiterPair; ArrayOpen; LiteralBoolTrue;
        DelimiterMember; LiteralNull; ArrayClose; ObjectClose]
  /\ getTokens Examples.object
     = Ok [mkToken (lit "{") ObjectOpen;
           mkToken (dquote ++ lit "a" ++ dquote) StringRegular;
           mkToken (lit ":") DelimiterPair;
           mkToken (lit "1") Number;
           mkToken (lit ",") DelimiterMember;
           mkToken (dquote ++ lit "b" ++ dquote) StringRegular;
           mkToken (lit ":") DelimiterPair;
           mkToken (lit "[") ArrayOpen;
           mkToken (lit "true") LiteralBoolTrue;
           mkToken (lit ",") DelimiterMember;
           mkToken (lit "null") LiteralNull;
           mkToken (lit "]") ArrayClose;
           mkToken (lit "}") ObjectClose].
Proof. split; vm_compute; reflexivity. Qed.

(** ** C3: a bare number *)

(** C3 on the code.  On the eight characters [-12.5e+3] with nothing after
    them the loop of lines 233-242 reads [jsonFile[8]] and the run panics: no
    token is returned.  Followed by a line feed the same number is the single
    Number token with content [-12.5e+3]. *)
Theorem getTokens_bare_number_panics :
  getTokens Examples.number = IndexOutOfRange 8 8
  /\ getTokens Examples.number_line = Ok [mkToken (lit "-12.5e+3") Number].
Proof. split; vm_compute; reflexivity. Qed.

(** ** C4: termination and failure *)

(** C4 as stated fails: on a lone quote, and on an escape sequence cut short,
    [getTokens] panics with an index out of range and returns no tokens. *)
Lemma getTokens_lone_quote_fails :
  getTokens Examples.lone_quote = IndexOutOfRange 1 1
  /\ getTokens Examples.truncated_escape = IndexOutOfRange 5 5
  /\ ~ (exists tokenArray, getTokens Examples.lone_quote = Ok tokenArray).
Proof.
  split; [vm_compute; reflexivity|]. split; [vm_compute; reflexivity|].
  intros [tokenArray H]. vm_compute in H. discriminate.
Qed.

(** C4, amended.  On every input [getTokens] terminates after one pass from
    left to right ([len(jsonFile)] iterations of the outer loop, and
    [len(jsonFile) - i] of an inner one, are never exhausted): it returns a
    token sequence, or it panics at the read of [jsonFile[len(jsonFile)]],
    one past the last byte, and at no other index. *)
Theorem getTokens_terminates (jsonFile : list byte) :
  (exists tokenArray, getTokens jsonFile = Ok tokenArray)
  \/ getTokens jsonFile
     = IndexOutOfRange (Z.of_nat (List.length jsonFile)) (List.length jsonFile).
Proof.
  unfold getTokens.
  destruct (getTokensFrom_spec jsonFile (List.length jsonFile) 0 [])
    as [P | (tokenArray & E & _)]; [lia | constructor | right; exact P |].
  left. exists tokenArray. exact E.
Qed.

(** ** C5: printing a pair of braces *)

(** C5 as stated fails: between the two braces there is not a single line
    feed. *)
Lemma printTokens_braces_single_newline_fails :
  printTokens [mkToken (lit "{") ObjectOpen; mkToken (lit "}") ObjectClose]
  <> styled (mkToken (lit "{") ObjectOpen) ++ newline
     ++ styled (mkToken (lit "}") ObjectClose).
Proof. vm_compute. discriminate. Qed.

(** C5, amended.  The input of the two braces yields the kinds ObjectOpen,
    ObjectClose, and the two tokens print as the styled open brace, the line
    feed that follows every opening token, the line feed and the indentation
    of no tabs that precede every closing token, and the styled close brace:
    two line feeds.  In general an ObjectClose or ArrayClose token is
    preceded by a line feed and [indentationLevel - 1] tabs (none below level
    two), the level being the one before the decrement, and no white space
    follows it. *)
Theorem printTokens_braces_two_newlines :
  kindsOf (getTokens Examples.braces) = Ok [ObjectOpen; ObjectClose]
  /\ getTokens Examples.braces
     = Ok [mkToken (lit "{") ObjectOpen; mkToken (lit "}") ObjectClose]
  /\ printTokens [mkToken (lit "{") ObjectOpen; mkToken (lit "}") ObjectClose]
     = styled (mkToken (lit "{") ObjectOpen) ++ newline
       ++ (newline ++ List.repeat x09 0)
       ++ styled (mkToken (lit "}") ObjectClose)
  /\ (forall (k : Z) (content : gostring) (indentationLevel : Z)
             (isToIndent : bool),
         In k [ObjectClose; ArrayClose] ->
         addWhiteSpace (mkToken content k) indentationLevel isToIndent
         = (newline ++ List.repeat x09 (Z.to_nat (indentationLevel - 1)), [],
            wrapInt (indentationLevel - 1), false)
         /\ styleHTML (mkToken content k) indentationLevel isToIndent
            = ((newline ++ List.repeat x09 (Z.to_nat (indentationLevel - 1)))
               ++ styled (mkToken content k),
               wrapInt (indentationLevel - 1), false)).
Proof.
  split; [vm_compute; reflexivity|].
  split; [vm_compute; reflexivity|].
  split; [vm_compute; reflexivity|].
  intros k content indentationLevel isToIndent K.
  assert (W : addWhiteSpace (mkToken content k) indentationLevel isToIndent
              = (newline
                   ++ List.repeat x09 (Z.to_nat (indentationLevel - 1)), [],
                 wrapInt (indentationLevel - 1), false)).
  { unfold addWhiteSpace. rewrite indentStringOf_tabs.
    destruct K as [<- | [<- | []]]; reflexivity. }
  split; [exact W|].
  unfold styleHTML, styled. rewrite W.
  destruct (addColor (mkToken content k)) as [colorPre colorPost].
  cbn [fst snd]. rewrite <- !app_assoc, app_nil_r. reflexivity.
Qed.

(** The hypothesis of the theorem at a closing bracket on level two, after a
    line feed: one tab. *)
Lemma printTokens_braces_two_newlines_witness :
  In ArrayClose [ObjectClose; ArrayClose]
  /\ styleHTML (mkToken (lit "]") ArrayClose) 2 false
     = ((newline ++ [x09]) ++ styled (mkToken (lit "]") ArrayClose), 1, false).
Proof.
  assert (K : In ArrayClose [ObjectClose; ArrayClose])
    by (right; left; reflexivity).
  split; [exact K|].
  exact (proj2 (proj2 (proj2 (proj2 printTokens_braces_two_newlines))
                      ArrayClose (lit "]") 2 false K)).
Defined.

(** ** C6: the contents of the tokens against the input *)

(** C6 on the code.  The array with the one string of the letter e with acute
    accent is valid JSON without white space, so the claim asks for the input
    back.  [string(jsonFile[i])] converts every byte on its own, and a byte
    from 0x80 on becomes the two-byte encoding of the code point of that
    value: the contents hold C3 83 C2 A9 where the input has C3 A9. *)
Theorem getTokens_accent_contents :
  getTokens Examples.accent
  = Ok [mkToken (lit "[") ArrayOpen;
        mkToken (dquote ++ [xc3; x83; xc2; xa9] ++ dquote) StringRegular;
        mkToken (lit "]") ArrayClose]
  /\ contentsOf (getTokens Examples.accent)
     = Ok (lit "[" ++ dquote ++ [xc3; x83; xc2; xa9] ++ dquote ++ lit "]")
  /\ contentsOf (getTokens Examples.accent) <> Ok Examples.accent.
Proof.
  split; [vm_compute; reflexivity|]. split; [vm_compute; reflexivity|].
  vm_compute. discriminate.
Qed.

(** ** C7: escape tokens *)

(** C7.  The string literal with the one escape sequence backslash, [u],
    [0041] yields the StringRegular token of the opening quote, the
    StringEscaped token of the six characters of the escape sequence and the
    StringClose token of the closing quote.  On every input the content of
    every StringEscaped token that [getTokens] returns is the backslash and
    the text of the input character after it, or of the five input characters
    after it when the first of them is [u]: it begins with a backslash and
    has six characters when the second one is [u] and two otherwise:
    characters counted as code points, as [utf8.RuneCountInString] does, and
    bytes as well when the characters after the backslash are ASCII. *)
Theorem getTokens_escape_tokens :
  getTokens Examples.unicode_escape
  = Ok [mkToken dquote StringRegular;
        mkToken (backslash ++ lit "u0041") StringEscaped;
        mkToken dquote StringClose]
  /\ forall (jsonFile : list byte) (tokenArray : list Token) (t : Token),
      getTokens jsonFile = Ok tokenArray ->
      In t tokenArray ->
      kind t = StringEscaped ->
      (exists b bs,
          content t = backslash ++ text (b :: bs)
          /\ List.length bs = (if Byte.eqb b "u" then 4%nat else 0%nat)
          /\ (Forall (fun x => byteval x < 0x80) (b :: bs) ->
              List.length (content t)
              = if Byte.eqb b "u" then 6%nat else 2%nat))
      /\ (exists tail, content t = x5c :: tail)
      /\ exists second rest,
          utf8.rangeString (content t) = 0x5C :: second :: rest
          /\ utf8.RuneCountInString (content t)
             = if second =? 0x75 then 6%nat else 2%nat.
Proof.
  split; [vm_compute; reflexivity|].
  intros jsonFile tokenArray t H I K. unfold getTokens in H.
  destruct (getTokensFrom_spec jsonFile (List.length jsonFile) 0 [])
    as [P | (tokenArray' & E & W)]; [lia | constructor | |].
  - red in P. congruence.
  - rewrite E in H. injection H as ->. rewrite Forall_forall in W.
    destruct (W t I) as [_ S].
    split; [exact (escapeSequence_bytes _ (S K))|].
    apply escapeSequence_runes, S, K.
Qed.

(** The hypotheses of the theorem at the escape token of the example. *)
Lemma getTokens_escape_tokens_witness :
  getTokens Examples.unicode_escape
  = Ok [mkToken dquote StringRegular;
        mkToken (backslash ++ lit "u0041") StringEscaped;
        mkToken dquote StringClose]
  /\ In (mkToken (backslash ++ lit "u0041") StringEscaped)
        [mkToken dquote StringRegular;
         mkToken (backslash ++ lit "u0041") StringEscaped;
         mkToken dquote StringClose]
  /\ exists second rest,
      utf8.rangeString (backslash ++ lit "u0041") = 0x5C :: second :: rest
      /\ utf8.RuneCountInString (backslash ++ lit "u0041")
         = if second =? 0x75 then 6%nat else 2%nat.
Proof.
  assert (H : getTokens Examples.unicode_escape
              = Ok [mkToken dquote StringRegular;
                    mkToken (backslash ++ lit "u0041") StringEscaped;
                    mkToken dquote StringClose])
    by (vm_compute; reflexivity).
  assert (I : In (mkToken (backslash ++ lit "u0041") StringEscaped)
                 [mkToken dquote StringRegular;
                  mkToken (backslash ++ lit "u0041") StringEscaped;
                  mkToken dquote StringClose])
    by (right; left; reflexivity).
  split; [exact H | split; [exact I|]].
  exact (proj2 (proj2 (proj2 getTokens_escape_tokens _ _ _ H I eq_refl))).
Defined.

(** ** C8: escaping twice *)

(** C8.  On a string with none of the five characters [<], [>], [&], the
    double and the single quote, escaping the escaped text yields the escaped
    text again. *)
Theorem escapeString_idempotent (s : gostring) (k k' : Z) :
  Forall (fun b => ~ special b) s ->
  escapeString (mkToken (escapeString (mkToken s k)) k')
  = escapeString (mkToken s k).
Proof.
  intros H. rewrite !escapeString_concat. cbn [content].
  pose proof (rangeFrom_spec _ s H 0%nat) as R.
  fold (utf8.rangeString s) in R.
  assert (E : map escapeCharacter (utf8.rangeString s)
              = map utf8.encoderune (utf8.rangeString s)).
  { apply map_ext_in. intros r I. rewrite Forall_forall in R.
    destruct (R r I) as [V A]. apply escapeCharacter_plain; assumption. }
  rewrite E, rangeString_concat_encoderune, E; [reflexivity|].
  eapply Forall_impl; [|exact R]. simpl. tauto.
Qed.

(** The hypothesis of the theorem at a string that is not valid UTF-8. *)
Lemma escapeString_idempotent_witness :
  Forall (fun b => ~ special b) Examples.mixed_bytes
  /\ escapeString
       (mkToken (escapeString (mkToken Examples.mixed_bytes StringRegular))
                StringRegular)
     = escapeString (mkToken Examples.mixed_bytes StringRegular).
Proof.
  assert (H : Forall (fun b => ~ special b) Examples.mixed_bytes)
    by (repeat constructor; intros [E|[E|[E|[E|E]]]]; discriminate).
  split; [exact H|].
  exact (escapeString_idempotent Examples.mixed_bytes StringRegular
                                 StringRegular H).
Defined.

(** ** C9: reads past the end of the input *)

(** C9.  When the input ends while a token is still being consumed,
    [getTokens] reads [jsonFile[len(jsonFile)]]: (1) a Number token at cursor
    [i] when all bytes after [i] continue a number; (2) a plain run of a
    string when no byte after [i] is a quote or a backslash; (3) a backslash
    inside a string that is the last byte, or is followed by [u] and fewer
    than four more bytes; (4) in particular every input that is a bare
    number, a sign or digit followed by number characters only. *)
Theorem getTokens_reads_past_end :
  (forall (jsonFile : list byte) (i fuel : nat) (tokenArray : list Token)
          (l : locals),
      classify jsonFile i tokenArray = Ok l -> isNumber l = true ->
      Forall numeric (skipn (S i) jsonFile) ->
      getTokensFrom (S fuel) jsonFile i tokenArray
      = IndexOutOfRange (Z.of_nat (List.length jsonFile))
                        (List.length jsonFile))
  /\ (forall (jsonFile : list byte) (i fuel : nat) (tokenArray : list Token)
             (l : locals),
      classify jsonFile i tokenArray = Ok l -> isStringRegular l = true ->
      Forall plain (skipn (S i) jsonFile) ->
      getTokensFrom (S fuel) jsonFile i tokenArray
      = IndexOutOfRange (Z.of_nat (List.length jsonFile))
                        (List.length jsonFile))
  /\ (forall (jsonFile : list byte) (i fuel : nat) (tokenArray : list Token)
             (l : locals),
      nth_error jsonFile i = Some x5c ->
      checkPrevious tokenArray (defaults backslash) = Ok l ->
      isString l = true ->
      skipn (S i) jsonFile = []
      \/ (exists tail, skipn (S i) jsonFile = "u"%byte :: tail
                       /\ (List.length tail < 4)%nat) ->
      getTokensFrom (S fuel) jsonFile i tokenArray
      = IndexOutOfRange (Z.of_nat (List.length jsonFile))
                        (List.length jsonFile))
  /\ (forall (b : byte) (p : list byte),
      numberStart b -> Forall numeric p ->
      getTokens (b :: p)
      = IndexOutOfRange (Z.of_nat (List.length (b :: p)))
                        (List.length (b :: p))).
Proof.
  split; [exact number_reads_past_end|].
  split; [exact plain_run_reads_past_end|].
  split; [exact escape_reads_past_end|].
  intros b p N F. unfold getTokens. cbn [List.length].
  apply (number_reads_past_end (b :: p) 0 (List.length p) [] _
                               (classify_numberStart b p N) eq_refl).
  exact F.
Qed.

(** The hypotheses of the theorem at the bare number, at a string literal
    that is not closed, and at an escape sequence that is cut short. *)
Lemma getTokens_reads_past_end_witness :
  (Forall numeric (skipn 1 Examples.number)
   /\ getTokensFrom 8 Examples.number 0 [] = IndexOutOfRange 8 8)
  /\ (Forall plain (skipn 1 Examples.unterminated)
      /\ getTokensFrom 3 Examples.unterminated 0 [] = IndexOutOfRange 3 3)
  /\ (nth_error Examples.truncated_escape 1 = Some x5c
      /\ getTokensFrom 4 Examples.truncated_escape 1
                       [mkToken dquote StringRegular]
         = IndexOutOfRange 5 5)
  /\ (numberStart "-"%byte
      /\ getTokens Examples.number = IndexOutOfRange 8 8).
Proof.
  assert (N : Forall numeric (skipn 1 Examples.number))
    by (repeat (constructor; [vm_compute; reflexivity|]); constructor).
  assert (P : Forall plain (skipn 1 Examples.unterminated))
    by (repeat (constructor; [split; discriminate|]); constructor).
  assert (S : numberStart "-"%byte) by (left; reflexivity).
  destruct getTokens_reads_past_end as (T1 & T2 & T3 & T4).
  split; [split; [exact N|]|split; [split; [exact P|]|split; split]].
  - pose proof (T1 Examples.number 0%nat 7%nat []
                   (mkLocals (lit "-") (lit "-") Number 1 true false false true)
                   ltac:(vm_compute; reflexivity) eq_refl N) as W.
    vm_compute in W. vm_compute. exact W.
  - pose proof (T2 Examples.unterminated 0%nat 2%nat []
                   (mkLocals dquote dquote StringRegular 1 true false true
                             false)
                   ltac:(vm_compute; reflexivity) eq_refl P) as W.
    vm_compute in W. vm_compute. exact W.
  - reflexivity.
  - assert (T : skipn 2 Examples.truncated_escape = []
                 \/ (exists tail,
                        skipn 2 Examples.truncated_escape = "u"%byte :: tail
                        /\ (List.length tail < 4)%nat))
      by (right; exists (lit "00"); split; [reflexivity | simpl; lia]).
    pose proof (T3 Examples.truncated_escape 1%nat 3%nat
                   [mkToken dquote StringRegular]
                   (mkLocals backslash backslash 0 1 true true false false)
                   eq_refl ltac:(vm_compute; reflexivity) eq_refl T) as W.
    vm_compute in W. vm_compute. exact W.
  - exact S.
  - pose proof (T4 "-"%byte (lit "12.5e+3") S N) as W.
    vm_compute in W. vm_compute. exact W.
Defined.

(** ** C10: no markup in escaped text *)

(** C10.  The text that [escapeString] returns never has one of [<], [>],
    the double quote and the single quote; it can have [&], which the
    entities bring in. *)
Theorem escapeString_no_markup :
  (forall token : Token, Forall (fun b => ~ markup b) (escapeString token))
  /\ In x26 (escapeString (mkToken (lit "<") StringRegular)).
Proof.
  split.
  - intros token. rewrite escapeString_concat.
    induction (utf8.rangeString (content token)) as [|r rs IH]; simpl.
    + constructor.
    + apply Forall_app. split; [apply escapeCharacter_no_markup | exact IH].
  - vm_compute. auto.
Qed.
(** * Further properties of the tokenizer *)

(** ** The loops only append *)

Lemma stringRegularLoop_extends (jsonFile : list byte) (fuel : nat) :
  forall (j : nat) (l l' : locals),
    stringRegularLoop fuel jsonFile j l = Ok l' -> extends l l'.
Proof.
  induction fuel as [|fuel IH]; intros j l l' H; [discriminate|].
  cbn [stringRegularLoop] in H.
  destruct (index jsonFile j) as [b| |]; cbn [bind] in H; try discriminate.
  destruct (streq _ dquote).
  { injection H as <-. apply extends_append. }
  destruct (streq _ backslash).
  { injection H as <-. apply extends_current. }
  eapply extends_trans; [apply extends_append | exact (IH _ _ _ H)].
Qed.

Lemma numberLoop_extends (jsonFile : list byte) (fuel : nat) :
  forall (j : nat) (l l' : locals),
    numberLoop fuel jsonFile j l = Ok l' -> extends l l'.
Proof.
  induction fuel as [|fuel IH]; intros j l l' H; [discriminate|].
  cbn [numberLoop] in H.
  destruct (index jsonFile j) as [b| |]; cbn [bind] in H; try discriminate.
  destruct (validNextNumCharacter _).
  - eapply extends_trans; [apply extends_append | exact (IH _ _ _ H)].
  - injection H as <-. apply extends_current.
Qed.

(** An iteration that returns: the token is classified, the two loops run or
    not, the token is appended or not. *)
Lemma iteration_Ok (jsonFile : list byte) (i i' : nat)
      (tokenArray tokenArray' : list Token) :
  iteration jsonFile i tokenArray = Ok (tokenArray', i') ->
  exists l l1 l2,
    classify jsonFile i tokenArray = Ok l
    /\ (if isStringRegular l
        then stringRegularLoop (List.length jsonFile - i) jsonFile (i + 1) l
        else Ok l) = Ok l1
    /\ (if isNumber l1
        then numberLoop (List.length jsonFile - i) jsonFile (i + 1) l1
        else Ok l1) = Ok l2
    /\ extends l l2
    /\ tokenArray'
       = (if isToken l2
          then tokenArray ++ [mkToken (tokenContent l2) (tokenKind l2)]
          else tokenArray)
    /\ i' = (i + tokenLength l2)%nat.
Proof.
  unfold iteration. intros H.
  destruct (classify jsonFile i tokenArray) as [l| |]; cbn [bind] in H;
    try discriminate.
  destruct (if isStringRegular l then _ else _) as [l1| |] eqn:E1;
    cbn [bind] in H; try discriminate.
  destruct (if isNumber l1 then _ else _) as [l2| |] eqn:E2;
    cbn [bind] in H; try discriminate.
  injection H as <- <-. exists l, l1, l2.
  repeat split; try assumption.
  apply (extends_trans l l1 l2).
  - destruct (isStringRegular l);
      [exact (stringRegularLoop_extends _ _ _ _ _ E1)|].
    injection E1 as <-. apply extends_refl.
  - destruct (isNumber l1); [exact (numberLoop_extends _ _ _ _ _ E2)|].
    injection E2 as <-. apply extends_refl.
Qed.

(** An invariant of the cursor and the token array that every iteration
    keeps holds when [getTokens] returns, with the cursor at the end of the
    input or past it. *)
Lemma getTokensFrom_invariant (P : nat -> list Token -> Prop)
      (jsonFile : list byte) :
  (forall i i' tokenArray tokenArray',
      (i < List.length jsonFile)%nat -> P i tokenArray ->
      iteration jsonFile i tokenArray = Ok (tokenArray', i') ->
      P i' tokenArray') ->
  forall (fuel i : nat) (tokenArray tokenArray' : list Token),
    P i tokenArray ->
    getTokensFrom fuel jsonFile i tokenArray = Ok tokenArray' ->
    exists i', (List.length jsonFile <= i')%nat /\ P i' tokenArray'.
Proof.
  intros Step. induction fuel as [|fuel IH]; intros i tokenArray tokenArray' P0;
    cbn [getTokensFrom];
    destruct (Nat.ltb_spec i (List.length jsonFile)) as [Lt|Ge];
    intros H; try discriminate;
    try (injection H as <-; exists i; split; [exact Ge | exact P0]).
  destruct (iteration jsonFile i tokenArray) as [[ta i1]| |] eqn:E;
    cbn [bind fst snd] in H; try discriminate.
  exact (IH _ _ _ (Step _ _ _ _ Lt P0 E) H).
Qed.

(** ** The kind of the token at the cursor *)

(** A token continues a string only after a string token, and is marked as a
    closing quote only after an escape token. *)
Lemma checkPrevious_previous (tokenArray : list Token) (l l' : locals) :
  checkPrevious tokenArray l = Ok l' ->
  l' = l
  \/ (l' = setIsString true l
      /\ exists previousToken,
          lastToken tokenArray = Some previousToken
          /\ (kind previousToken = StringRegular
              \/ kind previousToken = StringEscaped))
  \/ (l' = setKind StringClose (setIsString true l)
      /\ currentCharacter l = dquote
      /\ exists previousToken,
          lastToken tokenArray = Some previousToken
          /\ kind previousToken = StringEscaped).
Proof.
  unfold checkPrevious.
  destruct (lastToken tokenArray) as [t|]; [|intros H; inversion H; auto].
  destruct (indexLast (content t)) as [b| |]; cbn [bind]; try discriminate.
  destruct (Z.eqb_spec (kind t) StringRegular) as [R|_].
  { destruct (streq (string_of_byte b) dquote); cbn [negb andb];
      [destruct (_ =? _)%nat|]; intros H; inversion H; eauto 7. }
  destruct (Z.eqb_spec (kind t) StringEscaped) as [E|_];
    [|intros H; inversion H; auto].
  destruct (streq (currentCharacter (setIsString true l)) dquote) eqn:S;
    intros H; inversion H; eauto 7.
  right. right. split; [reflexivity|]. split; [|eauto].
  apply streq_true in S. destruct l; exact S.
Qed.

Lemma classifyCharacter_kind (c : gostring) :
  isToken (classifyCharacter (defaults c)) = true ->
  In (tokenKind (classifyCharacter (defaults c)))
     [ObjectOpen; ObjectClose; ArrayOpen; ArrayClose; DelimiterPair;
      DelimiterMember; StringRegular; Number; LiteralBoolTrue;
      LiteralBoolFalse; LiteralNull].
Proof.
  unfold classifyCharacter. cbn [isString defaults negb currentCharacter].
  repeat match goal with
  | |- context [if ?x then _ else _] =>
    destruct x; [intros _; cbn; tauto|]
  end.
  discriminate.
Qed.

(** The kind of a classified token, with the token before it for the two
    kinds that exist only inside a string. *)
Lemma classify_kind (jsonFile : list byte) (i : nat) (tokenArray : list Token)
      (l : locals) :
  classify jsonFile i tokenArray = Ok l -> isToken l = true ->
  In (tokenKind l)
     [ObjectOpen; ObjectClose; ArrayOpen; ArrayClose; DelimiterPair;
      DelimiterMember; StringRegular; Number; LiteralBoolTrue;
      LiteralBoolFalse; LiteralNull]
  \/ (tokenKind l = StringEscaped
      /\ exists previousToken,
          lastToken tokenArray = Some previousToken
          /\ (kind previousToken = StringRegular
              \/ kind previousToken = StringEscaped))
  \/ (tokenKind l = StringClose
      /\ tokenContent l = dquote
      /\ isStringRegular l = false /\ isNumber l = false
      /\ exists previousToken,
          lastToken tokenArray = Some previousToken
          /\ kind previousToken = StringEscaped).
Proof.
  intros H T. unfold classify, index in H.
  destruct (nth_error jsonFile i) as [b|] eqn:Eb; [|discriminate].
  cbn [bind] in H.
  destruct (checkPrevious tokenArray (defaults (string_of_byte b)))
    as [l0| |] eqn:C; cbn [bind] in H; try discriminate.
  apply checkPrevious_previous in C.
  destruct C as [-> | [[-> Prev] | (-> & C & Prev)]].
  - rewrite classifyString_outside in H
      by (rewrite classifyCharacter_isString; reflexivity).
    injection H as <-. left. apply classifyCharacter_kind, T.
  - rewrite classifyCharacter_inString in H by reflexivity.
    destruct (streq (string_of_byte b) backslash) eqn:B.
    2:{ left.
        destruct (streq (string_of_byte b) dquote) eqn:Q.
        - apply streq_true in Q.
          rewrite classifyString_quote in H by (reflexivity || exact Q).
          injection H as <-. cbn. tauto.
        - rewrite classifyString_plain in H by (reflexivity || assumption).
          injection H as <-. cbn. tauto. }
    right. left. split; [|exact Prev].
    apply streq_true in B.
    rewrite classifyString_escape in H by (reflexivity || exact B).
    destruct (index jsonFile (i + 1)) as [b1| |]; cbn [bind] in H;
      try discriminate.
    cbv zeta in H. destruct (Byte.eqb b1 "u").
    + apply unicodeLoop_exact in H. destruct H as (c & bs & _ & _ & ->).
      reflexivity.
    + injection H as <-. reflexivity.
  - rewrite classifyCharacter_inString in H by reflexivity.
    rewrite classifyString_close in H by (reflexivity || exact C).
    injection H as <-. right. right.
    repeat split; try reflexivity; [exact C | exact Prev].
Qed.

(** ** Skipped bytes, literals and numbers *)

(** The literals of the comparisons, as lists of bytes. *)
Ltac byte_literals :=
  unfold dquote, backslash;
  repeat match goal with
  | |- context [lit ?s] =>
    let v := eval vm_compute in (lit s) in change (lit s) with v
  end.

Lemma classifyCharacter_skipped (b : byte) :
  ~ tokenStart b ->
  classifyCharacter (defaults (string_of_byte b))
  = setIsToken false (defaults (string_of_byte b)).
Proof.
  intros N.
  assert (F : forall c, byteval c < 0x80 -> tokenStart c ->
                        streq (string_of_byte b) [c] = false).
  { intros c A T. rewrite streq_string_of_byte by exact A.
    apply not_true_is_false. rewrite byte_eqb_true. intros ->. exact (N T). }
  unfold classifyCharacter. cbn [isString defaults negb currentCharacter].
  byte_literals.
  rewrite !F by first [ vm_compute; reflexivity
                      | right; reflexivity
                      | left; vm_compute; tauto ].
  reflexivity.
Qed.

Lemma classify_first (jsonFile : list byte) (i : nat) (b : byte) :
  nth_error jsonFile i = Some b ->
  classify jsonFile i [] = Ok (classifyCharacter (defaults (string_of_byte b))).
Proof.
  intros E. unfold classify, index. rewrite E. cbn [bind].
  change (checkPrevious [] (defaults (string_of_byte b)))
    with (Ok (defaults (string_of_byte b))).
  cbn [bind]. apply classifyString_outside.
  rewrite classifyCharacter_isString. reflexivity.
Qed.

(** A token that neither loop extends. *)
Lemma iteration_simple (jsonFile : list byte) (i : nat)
      (tokenArray : list Token) (l : locals) :
  classify jsonFile i tokenArray = Ok l ->
  isStringRegular l = false -> isNumber l = false ->
  iteration jsonFile i tokenArray
  = Ok (if isToken l
        then tokenArray ++ [mkToken (tokenContent l) (tokenKind l)]
        else tokenArray, (i + tokenLength l)%nat).
Proof.
  intros H R N. unfold iteration. rewrite H. cbn [bind]. rewrite R.
  cbn [bind]. rewrite N. reflexivity.
Qed.

(** The loop ends when the cursor has reached the end of the input. *)
Lemma getTokensFrom_done (jsonFile : list byte) (fuel i : nat)
      (tokenArray : list Token) :
  (List.length jsonFile <= i)%nat ->
  getTokensFrom fuel jsonFile i tokenArray = Ok tokenArray.
Proof.
  intros H. destruct fuel; cbn [getTokensFrom];
    destruct (Nat.ltb_spec i (List.length jsonFile)); (lia || reflexivity).
Qed.

Lemma getTokensFrom_skipped (jsonFile : list byte) (fuel : nat) :
  Forall (fun b => ~ tokenStart b) jsonFile ->
  forall i, (List.length jsonFile - i <= fuel)%nat ->
            getTokensFrom fuel jsonFile i [] = Ok [].
Proof.
  intros S. induction fuel as [|fuel IH]; intros i F; cbn [getTokensFrom];
    destruct (Nat.ltb_spec i (List.length jsonFile)) as [Lt|Ge];
    try reflexivity; try lia.
  destruct (nth_error jsonFile i) as [b|] eqn:E;
    [|apply nth_error_None in E; lia].
  assert (N : ~ tokenStart b).
  { rewrite Forall_forall in S. exact (S b (nth_error_In _ _ E)). }
  rewrite (iteration_simple jsonFile i [] _ (classify_first _ _ _ E));
    rewrite classifyCharacter_skipped by exact N; try reflexivity.
  cbn [bind fst snd isToken setIsToken tokenLength defaults].
  apply IH. lia.
Qed.

(** A number that is ended by a byte that does not continue it. *)
Lemma numberLoop_run (p : list byte) :
  forall (pre post : list byte) (c : byte) (fuel : nat) (l : locals),
    Forall numeric p -> ~ numeric c ->
    (List.length p < fuel)%nat ->
    numberLoop fuel (pre ++ p ++ c :: post) (List.length pre) l
    = Ok (mkLocals (string_of_byte c) (tokenContent l ++ text p)
                   (tokenKind l) (tokenLength l + List.length p)
                   (isToken l) (isString l) (isStringRegular l) (isNumber l)).
Proof.
  induction p as [|b p IH]; intros pre post c fuel l P C F;
    (destruct fuel as [|fuel]; [simpl in F; lia|]); cbn [numberLoop].
  - cbn [app]. rewrite index_after. cbn [bind].
    replace (currentCharacter (setCurrentCharacter (string_of_byte c) l))
      with (string_of_byte c) by (destruct l; reflexivity).
    apply not_true_is_false in C. unfold numeric in C. rewrite C.
    destruct l as [cc s k n t st sr nu].
    unfold setCurrentCharacter, text. cbn. rewrite app_nil_r, Nat.add_0_r.
    reflexivity.
  - inversion P as [|? ? Pb Pp]; subst.
    change (pre ++ (b :: p) ++ c :: post)
      with (pre ++ b :: (p ++ c :: post)).
    rewrite index_after. cbn [bind].
    replace (currentCharacter (setCurrentCharacter (string_of_byte b) l))
      with (string_of_byte b) by (destruct l; reflexivity).
    rewrite Pb.
    replace (pre ++ b :: p ++ c :: post)
      with ((pre ++ [b]) ++ p ++ c :: post)
      by (rewrite <- app_assoc; reflexivity).
    replace (S (List.length pre)) with (List.length (pre ++ [b]))
      by (rewrite length_app; simpl; lia).
    rewrite IH by (auto; simpl in F; lia).
    destruct l as [cc s k n t st sr nu].
    unfold appendCharacter, setContent, setCurrentCharacter.
    cbn [currentCharacter tokenContent tokenKind tokenLength isToken isString
         isStringRegular isNumber List.length].
    rewrite text_cons, <- !app_assoc. f_equal. f_equal; lia.
Qed.

(** ** X1: bytes that start no token *)

(** X1.  Outside a string a byte that starts no token (white space and every
    other byte that is none of the structural characters, a quote, a sign, a
    digit, [t], [f], [n]) is skipped: no token is stored and the cursor moves
    by one.  An input of such bytes only, the empty input included, yields the
    empty token array and no panic. *)
Theorem getTokens_skips_other_bytes :
  (forall (jsonFile : list byte) (i : nat) (tokenArray : list Token)
          (l : locals) (b : byte),
      classify jsonFile i tokenArray = Ok l -> isString l = false ->
      nth_error jsonFile i = Some b -> ~ tokenStart b ->
      iteration jsonFile i tokenArray = Ok (tokenArray, (i + 1)%nat))
  /\ (forall jsonFile : list byte,
         Forall (fun b => ~ tokenStart b) jsonFile ->
         getTokens jsonFile = Ok []).
Proof.
  split.
  - intros jsonFile i tokenArray l b H S E N.
    destruct (classify_outside _ _ _ _ H S) as (b' & E' & L).
    rewrite E in E'. injection E' as <-.
    rewrite classifyCharacter_skipped in L by exact N. subst l.
    rewrite (iteration_simple _ _ _ _ H) by reflexivity. reflexivity.
  - intros jsonFile S. apply getTokensFrom_skipped; [exact S | lia].
Qed.

Lemma getTokens_skips_other_bytes_witness :
  Forall (fun b => ~ tokenStart b) MoreExamples.blank
  /\ getTokens MoreExamples.blank = Ok [].
Proof.
  assert (S : Forall (fun b => ~ tokenStart b) MoreExamples.blank).
  { repeat constructor; intros [I | E]; try discriminate E;
      vm_compute in I; repeat (destruct I as [I | I]; try discriminate I);
      exact I. }
  split; [exact S|].
  exact (proj2 getTokens_skips_other_bytes MoreExamples.blank S).
Defined.

(** ** X2: literals are not checked *)

(** X2.  Outside a string the byte [t], [f] or [n] alone makes the token
    [true], [false] or [null]: the token has the full text of the literal,
    the cursor moves by the length of that text, and the bytes it moves over
    are never read.  So every input of one of these bytes and fewer further
    bytes than the literal has is that one token, whatever the bytes are and
    although the cursor ends past the input. *)
Theorem getTokens_literals_unchecked :
  (forall (jsonFile : list byte) (i : nat) (tokenArray : list Token)
          (l : locals) (b : byte) (word : gostring) (k : Z),
      classify jsonFile i tokenArray = Ok l -> isString l = false ->
      nth_error jsonFile i = Some b -> In (b, word, k) literals ->
      iteration jsonFile i tokenArray
      = Ok (tokenArray ++ [mkToken word k], (i + List.length word)%nat))
  /\ (forall (b : byte) (word : gostring) (k : Z) (rest : list byte),
         In (b, word, k) literals ->
         (List.length rest < List.length word)%nat ->
         getTokens (b :: rest) = Ok [mkToken word k]).
Proof.
  assert (C : forall b word k,
             In (b, word, k) literals ->
             classifyCharacter (defaults (string_of_byte b))
             = mkLocals (string_of_byte b) word k (List.length word) true
                        false false false).
  { intros b word k I.
    repeat (destruct I as [I | I];
            [injection I as <- <- <-; vm_compute; reflexivity|]).
    destruct I. }
  split.
  - intros jsonFile i tokenArray l b word k H S E I.
    destruct (classify_outside _ _ _ _ H S) as (b' & E' & L).
    rewrite E in E'. injection E' as <-. rewrite (C _ _ _ I) in L. subst l.
    rewrite (iteration_simple _ _ _ _ H) by reflexivity. reflexivity.
  - intros b word k rest I L. unfold getTokens.
    cbn [List.length getTokensFrom Nat.ltb Nat.leb].
    rewrite (iteration_simple (b :: rest) 0 [] _
                              (classify_first (b :: rest) 0 b eq_refl));
      rewrite (C _ _ _ I); try reflexivity.
    cbn [bind fst snd isToken tokenContent tokenKind tokenLength app].
    apply getTokensFrom_done. simpl. lia.
Qed.

Lemma getTokens_literals_unchecked_witness :
  In ("t"%byte, lit "true", LiteralBoolTrue) literals
  /\ getTokens MoreExamples.not_true
     = Ok [mkToken (lit "true") LiteralBoolTrue].
Proof.
  assert (I : In ("t"%byte, lit "true", LiteralBoolTrue) literals)
    by (left; reflexivity).
  split; [exact I|].
  exact (proj2 getTokens_literals_unchecked "t"%byte (lit "true")
               LiteralBoolTrue (lit "!?") I ltac:(simpl; lia)).
Defined.

(** ** X3: a number runs up to the first byte that does not continue it *)

(** X3.  A Number token at cursor [i] that is followed by the bytes [p], all
    of which continue a number, and then by a byte [c] that does not, is one
    token whose content is the text of the byte at [i] and of [p]; the cursor
    stops at [c], which is read but not consumed. *)
Theorem getTokens_number_run
        (pre p post : list byte) (b c : byte) (tokenArray : list Token)
        (l : locals) :
  classify (pre ++ b :: p ++ c :: post) (List.length pre) tokenArray = Ok l ->
  isNumber l = true ->
  Forall numeric p -> ~ numeric c ->
  iteration (pre ++ b :: p ++ c :: post) (List.length pre) tokenArray
  = Ok (tokenArray ++ [mkToken (text (b :: p)) Number],
        (List.length pre + (1 + List.length p))%nat).
Proof.
  intros H N P C. destruct (classify_cases _ _ _ _ H) as (b' & Eb & K).
  rewrite nth_error_after in Eb. injection Eb as <-.
  unfold iteration. rewrite H. cbn [bind].
  inversion K as [s k n str S Hn Hk E| E | str E | E | c' s n S Hn E];
    subst l; try discriminate. cbn [isStringRegular isNumber bind].
  replace (List.length pre + 1)%nat with (List.length (pre ++ [b]))
    by (rewrite length_app; reflexivity).
  replace (pre ++ b :: p ++ c :: post)
    with ((pre ++ [b]) ++ p ++ c :: post)
    by (rewrite <- app_assoc; reflexivity).
  rewrite numberLoop_run; [|assumption|assumption|].
  2:{ rewrite !length_app. simpl. lia. }
  cbn [bind isToken tokenContent tokenKind tokenLength]. reflexivity.
Qed.

Lemma getTokens_number_run_witness :
  Forall numeric (lit "12.5e+3")
  /\ ~ numeric "]"%byte
  /\ iteration MoreExamples.number_in_array 1 [mkToken (lit "[") ArrayOpen]
     = Ok ([mkToken (lit "[") ArrayOpen; mkToken (lit "-12.5e+3") Number],
           9%nat).
Proof.
  assert (P : Forall numeric (lit "12.5e+3"))
    by (repeat (constructor; [vm_compute; reflexivity|]); constructor).
  assert (C : ~ numeric "]"%byte) by (vm_compute; discriminate).
  split; [exact P | split; [exact C|]].
  pose proof (getTokens_number_run
                (lit "[") (lit "12.5e+3") [] "-"%byte "]"%byte
                [mkToken (lit "[") ArrayOpen]
                (mkLocals (lit "-") (lit "-") Number 1 true false false true)
                ltac:(vm_compute; reflexivity) eq_refl P C) as W.
  vm_compute in W. vm_compute. exact W.
Defined.

(** ** X4: no more tokens than bytes *)

Lemma classified_tokenLength (b : byte) (l : locals) :
  classified b l -> (1 <= tokenLength l)%nat.
Proof. intros K. destruct K; cbn; lia. Qed.

(** X4.  Every iteration moves the cursor forward by at least one byte and
    stores at most one token, so [getTokens] never returns more tokens than
    the input has bytes. *)
Theorem getTokens_length (jsonFile : list byte) (tokenArray : list Token) :
  getTokens jsonFile = Ok tokenArray ->
  (List.length tokenArray <= List.length jsonFile)%nat.
Proof.
  intros H. unfold getTokens in H.
  set (P := fun (i : nat) (ta : list Token) =>
              (List.length ta <= Nat.min i (List.length jsonFile))%nat).
  assert (Step : forall i i' ta ta',
             (i < List.length jsonFile)%nat -> P i ta ->
             iteration jsonFile i ta = Ok (ta', i') -> P i' ta').
  { unfold P. intros i i1 ta ta1 Lt L E.
    destruct (iteration_Ok _ _ _ _ _ E)
      as (l & l1 & l2 & C & _ & _ & (c & ext & n & ->) & -> & ->).
    destruct (classify_cases _ _ _ _ C) as (b & _ & K).
    apply classified_tokenLength in K. cbn [isToken tokenLength].
    apply Nat.min_glb_iff in L. apply Nat.min_glb_iff.
    destruct (isToken l); rewrite ?length_app; simpl; lia. }
  assert (P0 : P 0%nat []) by (unfold P; simpl; apply Nat.le_0_l).
  destruct (getTokensFrom_invariant P jsonFile Step _ _ _ _ P0 H)
    as (i' & _ & L).
  unfold P in L. apply Nat.min_glb_iff in L. tauto.
Qed.

Lemma getTokens_length_witness :
  getTokens Examples.object
  = Ok [mkToken (lit "{") ObjectOpen;
        mkToken (dquote ++ lit "a" ++ dquote) StringRegular;
        mkToken (lit ":") DelimiterPair;
        mkToken (lit "1") Number;
        mkToken (lit ",") DelimiterMember;
        mkToken (dquote ++ lit "b" ++ dquote) StringRegular;
        mkToken (lit ":") DelimiterPair;
        mkToken (lit "[") ArrayOpen;
        mkToken (lit "true") LiteralBoolTrue;
        mkToken (lit ",") DelimiterMember;
        mkToken (lit "null") LiteralNull;
        mkToken (lit "]") ArrayClose;
        mkToken (lit "}") ObjectClose]
  /\ (13 <= List.length Examples.object)%nat.
Proof.
  assert (H : getTokens Examples.object
              = Ok [mkToken (lit "{") ObjectOpen;
                    mkToken (dquote ++ lit "a" ++ dquote) StringRegular;
                    mkToken (lit ":") DelimiterPair;
                    mkToken (lit "1") Number;
                    mkToken (lit ",") DelimiterMember;
                    mkToken (dquote ++ lit "b" ++ dquote) StringRegular;
                    mkToken (lit ":") DelimiterPair;
                    mkToken (lit "[") ArrayOpen;
                    mkToken (lit "true") LiteralBoolTrue;
                    mkToken (lit ",") DelimiterMember;
                    mkToken (lit "null") LiteralNull;
                    mkToken (lit "]") ArrayClose;
                    mkToken (lit "}") ObjectClose])
    by (vm_compute; reflexivity).
  split; [exact H|]. exact (getTokens_length _ _ H).
Defined.

(** ** X5, X6: the kinds of the tokens and their order *)

(** The token that an iteration stores. *)
Lemma iteration_appends (jsonFile : list byte) (i i' : nat)
      (tokenArray tokenArray' : list Token) :
  iteration jsonFile i tokenArray = Ok (tokenArray', i') ->
  tokenArray' = tokenArray
  \/ exists t,
      tokenArray' = tokenArray ++ [t]
      /\ In (kind t) declaredKinds
      /\ (kind t = StringEscaped ->
          exists previousToken,
            lastToken tokenArray = Some previousToken
            /\ (kind previousToken = StringRegular
                \/ kind previousToken = StringEscaped))
      /\ (kind t = StringClose ->
          content t = dquote
          /\ exists previousToken,
              lastToken tokenArray = Some previousToken
              /\ kind previousToken = StringEscaped).
Proof.
  intros E.
  destruct (iteration_Ok _ _ _ _ _ E)
    as (l & l1 & l2 & C & E1 & E2 & (c & ext & n & X) & -> & _).
  assert (T : isToken l2 = isToken l) by (rewrite X; reflexivity).
  assert (K : tokenKind l2 = tokenKind l) by (rewrite X; reflexivity).
  rewrite T, K. destruct (isToken l) eqn:Tl; [right | left; reflexivity].
  eexists. split; [reflexivity|]. cbn [kind content].
  destruct (classify_kind _ _ _ _ C Tl)
    as [I | [(Kl & Prev) | (Kl & Cl & Rl & Nl & Prev)]].
  - split; [|split; intros Ke; rewrite Ke in I; exfalso;
                    revert I; vm_compute; intuition discriminate].
    revert I. generalize (tokenKind l). intros k. unfold declaredKinds.
    cbn [In]. tauto.
  - rewrite Kl. split; [vm_compute; tauto|].
    split; [intros _; exact Prev | discriminate].
  - rewrite Kl. split; [vm_compute; tauto|].
    split; [discriminate|]. intros _. split; [|exact Prev].
    rewrite Rl in E1. injection E1 as <-. rewrite Nl in E2.
    injection E2 as <-. exact Cl.
Qed.

Lemma snoc_split {A : Type} (ta before after : list A) (x t : A) :
  ta ++ [x] = before ++ t :: after ->
  (after = [] /\ before = ta /\ t = x)
  \/ exists after', after = after' ++ [x] /\ ta = before ++ t :: after'.
Proof.
  intros H. destruct after as [|y after] using rev_ind; [left | right].
  - change (before ++ [t]) with (before ++ [t]) in H.
    apply app_inj_tail in H. destruct H as [-> ->]. auto.
  - clear IHafter. exists after.
    change (before ++ t :: after ++ [y])
      with (before ++ (t :: after) ++ [y]) in H.
    rewrite app_assoc in H. apply app_inj_tail in H.
    destruct H as [-> ->]. auto.
Qed.

Lemma getTokens_kinds (jsonFile : list byte) (tokenArray : list Token) :
  getTokens jsonFile = Ok tokenArray ->
  Forall (fun t => In (kind t) declaredKinds) tokenArray.
Proof.
  intros H. unfold getTokens in H.
  set (P := fun (_ : nat) (ta : list Token) =>
              Forall (fun t => In (kind t) declaredKinds) ta).
  assert (Step : forall i i' ta ta',
             (i < List.length jsonFile)%nat -> P i ta ->
             iteration jsonFile i ta = Ok (ta', i') -> P i' ta').
  { unfold P. intros i i1 ta ta1 _ F E.
    destruct (iteration_appends _ _ _ _ _ E) as [-> | (t & -> & I & _)];
      [exact F|].
    apply Forall_app. split; [exact F|]. constructor; [exact I|constructor]. }
  assert (P0 : P 0%nat []) by constructor.
  destruct (getTokensFrom_invariant P jsonFile Step _ _ _ _ P0 H)
    as (i1 & _ & F).
  exact F.
Qed.

(** X5.  Every token that [getTokens] returns has one of the thirteen kinds
    that the constants declare, never the initial kind 0 of line 72, and a
    content that is not empty. *)
Theorem getTokens_declared_kinds (jsonFile : list byte)
        (tokenArray : list Token) :
  getTokens jsonFile = Ok tokenArray ->
  Forall (fun t => In (kind t) declaredKinds /\ content t <> []) tokenArray.
Proof.
  intros H. apply Forall_and.
  - exact (getTokens_kinds _ _ H).
  - unfold getTokens in H.
    destruct (getTokensFrom_spec jsonFile (List.length jsonFile) 0 [])
      as [Pn | (ts & E & W)]; [lia | constructor | red in Pn; congruence|].
    rewrite E in H. injection H as <-.
    eapply Forall_impl; [|exact W]. intros t [N _]. exact N.
Qed.

(** The theorem at an array with a string that ends with an escaped quote. *)
Lemma getTokens_declared_kinds_witness :
  exists tokenArray,
    getTokens MoreExamples.escaped_quote = Ok tokenArray
    /\ Forall (fun t => In (kind t) declaredKinds /\ content t <> [])
              tokenArray.
Proof.
  eexists. split; [vm_compute; reflexivity|].
  apply (getTokens_declared_kinds MoreExamples.escaped_quote).
  vm_compute. reflexivity.
Defined.

(** X6.  In the token array that [getTokens] returns a StringEscaped token
    always comes right after a StringRegular or a StringEscaped token, and a
    StringClose token is the one quote character and always comes right
    after a StringEscaped token; so neither is ever the first token. *)
Theorem getTokens_string_tokens_order (jsonFile : list byte)
        (tokenArray : list Token) :
  getTokens jsonFile = Ok tokenArray ->
  forall (before after : list Token) (t : Token),
    tokenArray = before ++ t :: after ->
    (kind t = StringEscaped ->
     exists previousToken,
       lastToken before = Some previousToken
       /\ (kind previousToken = StringRegular
           \/ kind previousToken = StringEscaped))
    /\ (kind t = StringClose ->
        content t = dquote
        /\ exists previousToken,
            lastToken before = Some previousToken
            /\ kind previousToken = StringEscaped).
Proof.
  intros H. unfold getTokens in H.
  set (Q := fun (before : list Token) (t : Token) =>
              (kind t = StringEscaped ->
               exists previousToken,
                 lastToken before = Some previousToken
                 /\ (kind previousToken = StringRegular
                     \/ kind previousToken = StringEscaped))
              /\ (kind t = StringClose ->
                  content t = dquote
                  /\ exists previousToken,
                      lastToken before = Some previousToken
                      /\ kind previousToken = StringEscaped)).
  set (P := fun (_ : nat) (ta : list Token) =>
              forall before after t, ta = before ++ t :: after -> Q before t).
  assert (Step : forall i i' ta ta',
             (i < List.length jsonFile)%nat -> P i ta ->
             iteration jsonFile i ta = Ok (ta', i') -> P i' ta').
  { unfold P. intros i i1 ta ta1 _ F E.
    destruct (iteration_appends _ _ _ _ _ E)
      as [-> | (t & -> & _ & Q1 & Q2)]; [exact F|].
    intros before after t' S.
    destruct (snoc_split _ _ _ _ _ S) as [(_ & -> & ->) | (a' & _ & S')].
    - split; assumption.
    - exact (F _ _ _ S'). }
  assert (P0 : P 0%nat []).
  { intros before after t S. destruct before; discriminate S. }
  destruct (getTokensFrom_invariant P jsonFile Step _ _ _ _ P0 H)
    as (i1 & _ & F).
  exact F.
Qed.

(** The StringClose token of that array and the token before it. *)
Lemma getTokens_string_tokens_order_witness :
  getTokens MoreExamples.escaped_quote
  = Ok ([mkToken (lit "[") ArrayOpen;
         mkToken (dquote ++ lit "a") StringRegular;
         mkToken (backslash ++ dquote) StringEscaped]
          ++ mkToken dquote StringClose :: [mkToken (lit "]") ArrayClose])
  /\ exists previousToken,
      lastToken [mkToken (lit "[") ArrayOpen;
                 mkToken (dquote ++ lit "a") StringRegular;
                 mkToken (backslash ++ dquote) StringEscaped]
      = Some previousToken
      /\ kind previousToken = StringEscaped.
Proof.
  assert (H : getTokens MoreExamples.escaped_quote
              = Ok ([mkToken (lit "[") ArrayOpen;
                     mkToken (dquote ++ lit "a") StringRegular;
                     mkToken (backslash ++ dquote) StringEscaped]
                      ++ mkToken dquote StringClose
                      :: [mkToken (lit "]") ArrayClose]))
    by (vm_compute; reflexivity).
  split; [exact H|].
  exact (proj2 (proj2 (getTokens_string_tokens_order _ _ H _ _ _ eq_refl)
                      eq_refl)).
Defined.
(** ** X7: the token after an escape token *)

Lemma checkPrevious_escaped (tokenArray : list Token) (previousToken : Token)
      (l : locals) :
  lastToken tokenArray = Some previousToken ->
  kind previousToken = StringEscaped ->
  content previousToken <> [] ->
  checkPrevious tokenArray l
  = Ok (if streq (currentCharacter l) dquote
        then setKind StringClose (setIsString true l)
        else setIsString true l).
Proof.
  intros L K N. unfold checkPrevious. rewrite L, K.
  destruct (indexLast_Ok _ N) as (b & ->). cbn [bind].
  change (StringEscaped =? StringRegular) with false.
  change (StringEscaped =? StringEscaped) with true. cbv iota.
  replace (currentCharacter (setIsString true l)) with (currentCharacter l)
    by (destruct l; reflexivity).
  reflexivity.
Qed.

(** X7.  Right after an escape token the tokenizer is still inside the
    string.  A quote there is a StringClose token of its own, of the one
    character.  A byte that is neither a quote nor a backslash starts a
    StringRegular token that runs, as after an opening quote, up to the next
    quote, which it includes, or up to the next backslash, which it leaves
    for the next token; structural characters, digits and white space in the
    run are text of the string. *)
Theorem getTokens_after_escape
        (tokenArray : list Token) (previousToken : Token) :
  lastToken tokenArray = Some previousToken ->
  kind previousToken = StringEscaped ->
  content previousToken <> [] ->
  (forall (jsonFile : list byte) (i : nat),
      nth_error jsonFile i = Some x22 ->
      iteration jsonFile i tokenArray
      = Ok (tokenArray ++ [mkToken dquote StringClose], (i + 1)%nat))
  /\ (forall (pre p post : list byte) (b c : byte),
         plain b -> Forall plain p -> c = x22 \/ c = x5c ->
         iteration (pre ++ b :: p ++ c :: post) (List.length pre) tokenArray
         = Ok (tokenArray
                 ++ [mkToken (text (b :: p)
                              ++ (if Byte.eqb c x22 then dquote else []))
                             StringRegular],
               (List.length pre
                + (1 + List.length p
                   + (if Byte.eqb c x22 then 1 else 0)))%nat)).
Proof.
  intros L K N. split.
  - intros jsonFile i E.
    apply iteration_simple with
      (l := mkLocals dquote dquote StringClose 1 true true false false);
      try reflexivity.
    unfold classify, index. rewrite E. cbn [bind].
    rewrite (checkPrevious_escaped _ _ _ L K N).
    change (string_of_byte x22) with dquote.
    cbn [bind defaults currentCharacter].
    change (streq dquote dquote) with true.
    cbv iota. rewrite classifyCharacter_inString by reflexivity.
    apply classifyString_close; reflexivity.
  - intros pre p post b c [Pq Pb] P C.
    destruct (plain_streq b (conj Pq Pb)) as [Q B].
    assert (H : classify (pre ++ b :: p ++ c :: post) (List.length pre)
                         tokenArray
                = Ok (mkLocals (string_of_byte b) (string_of_byte b)
                               StringRegular 1 true true true false)).
    { unfold classify. rewrite index_after. cbn [bind].
      rewrite (checkPrevious_escaped _ _ _ L K N).
      cbn [bind defaults currentCharacter]. rewrite Q.
      rewrite classifyCharacter_inString by reflexivity.
      rewrite classifyString_plain by (reflexivity || assumption).
      reflexivity. }
    unfold iteration. rewrite H. cbn [bind isStringRegular].
    replace (List.length pre + 1)%nat with (List.length (pre ++ [b]))
      by (rewrite length_app; reflexivity).
    replace (pre ++ b :: p ++ c :: post)
      with ((pre ++ [b]) ++ p ++ c :: post)
      by (rewrite <- app_assoc; reflexivity).
    rewrite stringRegularLoop_run; [|assumption|assumption|].
    2:{ rewrite !length_app. simpl. lia. }
    cbn [bind isNumber isToken tokenContent tokenKind tokenLength].
    rewrite text_cons, <- app_assoc. reflexivity.
Qed.

Lemma getTokens_after_escape_witness :
  iteration MoreExamples.escaped_quote 5
            [mkToken (lit "[") ArrayOpen;
             mkToken (dquote ++ lit "a") StringRegular;
             mkToken (backslash ++ dquote) StringEscaped]
  = Ok ([mkToken (lit "[") ArrayOpen;
         mkToken (dquote ++ lit "a") StringRegular;
         mkToken (backslash ++ dquote) StringEscaped;
         mkToken dquote StringClose], 6%nat).
Proof.
  pose proof (proj1 (getTokens_after_escape
                       [mkToken (lit "[") ArrayOpen;
                        mkToken (dquote ++ lit "a") StringRegular;
                        mkToken (backslash ++ dquote) StringEscaped]
                       (mkToken (backslash ++ dquote) StringEscaped)
                       eq_refl eq_refl ltac:(discriminate))
                    MoreExamples.escaped_quote 5%nat eq_refl) as W.
  vm_compute in W. vm_compute. exact W.
Defined.

(** * The tokens of strings *)

(** ** The token at the cursor, case by case *)

(** Outside a string: a literal, whose text does not come from the input,
    or a token that starts as the one character at the cursor. *)
Lemma classifyCharacter_table (b : byte) :
  (exists word k,
      In (b, word, k) literals
      /\ classifyCharacter (defaults (string_of_byte b))
         = mkLocals (string_of_byte b) word k (List.length word) true false
                    false false)
  \/ exists k t sr nu,
      classifyCharacter (defaults (string_of_byte b))
      = mkLocals (string_of_byte b) (string_of_byte b) k 1 t false sr nu
      /\ (k = StringRegular -> t = true /\ sr = true /\ nu = false)
      /\ (sr = true -> k = StringRegular).
Proof.
  unfold classifyCharacter. cbn [isString defaults negb currentCharacter].
  byte_literals.
  rewrite !streq_string_of_byte by (vm_compute; reflexivity).
  destruct (Byte.eqb b "t") eqn:T.
  { apply byte_eqb_true in T. subst b. left. do 2 eexists.
    split; [left; reflexivity | reflexivity]. }
  destruct (Byte.eqb b "f") eqn:F.
  { apply byte_eqb_true in F. subst b. left. do 2 eexists.
    split; [right; left; reflexivity | reflexivity]. }
  destruct (Byte.eqb b "n") eqn:N.
  { apply byte_eqb_true in N. subst b. left. do 2 eexists.
    split; [right; right; left; reflexivity | reflexivity]. }
  right.
  repeat match goal with
  | |- context [if ?c then _ else _] =>
    destruct c;
      [do 4 eexists; split; [reflexivity|];
       split; intros E; try discriminate E; auto|]
  end.
  do 4 eexists. split; [reflexivity|].
  split; intros E; discriminate E.
Qed.

(** After a StringRegular token the string goes on unless the token has
    closed it. *)
Lemma checkPrevious_regular (tokenArray : list Token) (previousToken : Token)
      (s : gostring) (b : byte) (l : locals) :
  lastToken tokenArray = Some previousToken ->
  kind previousToken = StringRegular ->
  content previousToken = s ++ [b] ->
  checkPrevious tokenArray l
  = Ok (if Byte.eqb b x22 && negb (List.length s =? 0)%nat
        then l else setIsString true l).
Proof.
  intros L K C. unfold checkPrevious. rewrite L, K, C.
  assert (I : indexLast (s ++ [b]) = Ok b).
  { unfold indexLast. destruct (s ++ [b]) eqn:E.
    - destruct s; discriminate E.
    - rewrite <- E. unfold index.
      rewrite length_app, Nat.add_sub, nth_error_app2, Nat.sub_diag by lia.
      reflexivity. }
  rewrite I. cbn [bind].
  change (StringRegular =? StringRegular) with true. cbv iota.
  unfold dquote. rewrite streq_string_of_byte by (vm_compute; reflexivity).
  rewrite length_app. cbn [List.length].
  destruct (Byte.eqb b x22); cbn [negb andb]; [|reflexivity].
  destruct s as [|x s]; cbn [List.length Nat.add Nat.eqb negb];
    [reflexivity|].
  replace (List.length s + 1)%nat with (S (List.length s)) by lia.
  reflexivity.
Qed.

Lemma closed_snoc (s : gostring) (b : byte) :
  closed (s ++ [b]) <-> b = x22 /\ s <> [].
Proof.
  split.
  - intros (s' & N & E). unfold dquote in E. apply app_inj_tail in E.
    destruct E as [-> ->]. auto.
  - intros [-> N]. exists s. auto.
Qed.

(** The string loop stops after a quote, which closes the token, or at a
    backslash, where the cursor is put. *)
Lemma stringRegularLoop_end (jsonFile : list byte) (i fuel : nat) :
  forall l l' : locals,
    stringRegularLoop fuel jsonFile (i + tokenLength l) l = Ok l' ->
    tokenContent l <> [] ->
    closed (tokenContent l')
    \/ nth_error jsonFile (i + tokenLength l') = Some x5c.
Proof.
  induction fuel as [|fuel IH]; intros l l' H N; [discriminate|].
  cbn [stringRegularLoop] in H. unfold index in H.
  destruct (nth_error jsonFile (i + tokenLength l)) as [b|] eqn:E;
    [|discriminate].
  cbn [bind] in H.
  replace (currentCharacter (setCurrentCharacter (string_of_byte b) l))
    with (string_of_byte b) in H by (destruct l; reflexivity).
  unfold dquote, backslash in H.
  rewrite !streq_string_of_byte in H by (vm_compute; reflexivity).
  destruct (Byte.eqb b x22) eqn:Q.
  { apply byte_eqb_true in Q. subst b. injection H as <-. left.
    exists (tokenContent l). split; [exact N|]. destruct l; reflexivity. }
  destruct (Byte.eqb b x5c) eqn:B.
  { apply byte_eqb_true in B. subst b. injection H as <-. right.
    destruct l; exact E. }
  apply (IH (appendCharacter (setCurrentCharacter (string_of_byte b) l))).
  - replace (tokenLength
               (appendCharacter (setCurrentCharacter (string_of_byte b) l)))
      with (S (tokenLength l)) by (destruct l; reflexivity).
    rewrite Nat.add_succ_r. exact H.
  - destruct l. cbn. apply app_nonempty. exact N.
Qed.

(** A token that is classified as a StringRegular starts as the one
    character at the cursor and is extended by the string loop. *)
Lemma classify_regular (jsonFile : list byte) (i : nat)
      (tokenArray : list Token) (l : locals) :
  classify jsonFile i tokenArray = Ok l -> tokenKind l = StringRegular ->
  exists b inString,
    nth_error jsonFile i = Some b
    /\ l = mkLocals (string_of_byte b) (string_of_byte b) StringRegular 1 true
                    inString true false.
Proof.
  intros H K. unfold classify, index in H.
  destruct (nth_error jsonFile i) as [b|] eqn:Eb; [|discriminate].
  cbn [bind] in H. exists b.
  destruct (checkPrevious tokenArray (defaults (string_of_byte b)))
    as [l0| |] eqn:C; cbn [bind] in H; try discriminate.
  apply checkPrevious_cases in C. destruct C as [-> | [-> | [-> C]]].
  - rewrite classifyString_outside in H
      by (rewrite classifyCharacter_isString; reflexivity).
    injection H as <-. exists false. split; [reflexivity|].
    destruct (classifyCharacter_table b)
      as [(word & k & I & E) | (k & t & sr & nu & E & R & _)];
      rewrite E in K |- *; cbn [tokenKind] in K.
    + exfalso. subst k. revert I. vm_compute. intuition discriminate.
    + destruct (R K) as (-> & -> & ->). subst k. reflexivity.
  - exists true. split; [reflexivity|].
    rewrite classifyCharacter_inString in H by reflexivity.
    destruct (streq (string_of_byte b) backslash) eqn:B.
    2:{ destruct (streq (string_of_byte b) dquote) eqn:Q.
        - apply streq_true in Q.
          rewrite classifyString_quote in H by (reflexivity || exact Q).
          injection H as <-. reflexivity.
        - rewrite classifyString_plain in H by (reflexivity || assumption).
          injection H as <-. reflexivity. }
    exfalso. apply streq_true in B.
    rewrite classifyString_escape in H by (reflexivity || exact B).
    destruct (index jsonFile (i + 1)) as [b1| |]; cbn [bind] in H;
      try discriminate.
    cbv zeta in H. destruct (Byte.eqb b1 "u").
    + apply unicodeLoop_exact in H. destruct H as (c & bs & _ & _ & ->).
      discriminate K.
    + injection H as <-. discriminate K.
  - exfalso. rewrite classifyCharacter_inString in H by reflexivity.
    rewrite classifyString_close in H by (reflexivity || exact C).
    injection H as <-. discriminate K.
Qed.

(** Inside a string a backslash starts an escape token. *)
Lemma classify_backslash (jsonFile : list byte) (i : nat)
      (tokenArray : list Token) (previousToken : Token) (l : locals) :
  lastToken tokenArray = Some previousToken ->
  kind previousToken = StringRegular ->
  content previousToken <> [] -> ~ closed (content previousToken) ->
  nth_error jsonFile i = Some x5c ->
  classify jsonFile i tokenArray = Ok l ->
  tokenKind l = StringEscaped /\ isToken l = true.
Proof.
  intros L K N O E H. unfold classify, index in H. rewrite E in H.
  cbn [bind] in H.
  destruct (exists_last N) as (s & b & C).
  rewrite (checkPrevious_regular _ _ _ _ _ L K C) in H.
  destruct (Byte.eqb b x22 && negb (List.length s =? 0)%nat) eqn:T.
  { exfalso. apply O. rewrite C. apply closed_snoc.
    apply andb_true_iff in T. destruct T as [T1 T2].
    apply byte_eqb_true in T1. split; [exact T1|].
    intros ->. discriminate T2. }
  cbn [bind] in H. rewrite classifyCharacter_inString in H by reflexivity.
  rewrite classifyString_escape in H by reflexivity.
  destruct (index jsonFile (i + 1)) as [b1| |]; cbn [bind] in H;
    try discriminate.
  cbv zeta in H. destruct (Byte.eqb b1 "u").
  - apply unicodeLoop_exact in H. destruct H as (c & bs & _ & _ & ->).
    split; reflexivity.
  - injection H as <-. split; reflexivity.
Qed.

Lemma snoc_neq {A : Type} (l : list A) (x : A) : l ++ [x] <> l.
Proof.
  intros E. apply (f_equal (@List.length A)) in E.
  rewrite length_app in E. simpl in E. lia.
Qed.

(** The token that an iteration has stored, from the variables. *)
Lemma iteration_token (jsonFile : list byte) (i i' : nat)
      (tokenArray : list Token) (t : Token) :
  iteration jsonFile i tokenArray = Ok (tokenArray ++ [t], i') ->
  exists l l1 l2,
    classify jsonFile i tokenArray = Ok l
    /\ (if isStringRegular l
        then stringRegularLoop (List.length jsonFile - i) jsonFile (i + 1) l
        else Ok l) = Ok l1
    /\ (if isNumber l1
        then numberLoop (List.length jsonFile - i) jsonFile (i + 1) l1
        else Ok l1) = Ok l2
    /\ extends l l1 /\ extends l1 l2
    /\ t = mkToken (tokenContent l2) (tokenKind l2)
    /\ i' = (i + tokenLength l2)%nat.
Proof.
  intros H.
  destruct (iteration_Ok _ _ _ _ _ H)
    as (l & l1 & l2 & C & E1 & E2 & _ & T & I).
  exists l, l1, l2. repeat split; try assumption.
  - destruct (isStringRegular l);
      [exact (stringRegularLoop_extends _ _ _ _ _ E1)|].
    injection E1 as <-. apply extends_refl.
  - destruct (isNumber l1); [exact (numberLoop_extends _ _ _ _ _ E2)|].
    injection E2 as <-. apply extends_refl.
  - destruct (isToken l2); [|exfalso; exact (snoc_neq _ _ T)].
    apply app_inv_head in T. injection T as ->. reflexivity.
Qed.

(** A StringRegular token that has been stored is closed, or the cursor is
    at the backslash that ended it. *)
Lemma iteration_regular (jsonFile : list byte) (i i' : nat)
      (tokenArray : list Token) (t : Token) :
  iteration jsonFile i tokenArray = Ok (tokenArray ++ [t], i') ->
  kind t = StringRegular ->
  closed (content t) \/ nth_error jsonFile i' = Some x5c.
Proof.
  intros H K.
  destruct (iteration_token _ _ _ _ _ H)
    as (l & l1 & l2 & C & E1 & E2 & (c1 & xa & n1 & Xa) & (c2 & xb & n2 & Xb)
        & -> & ->).
  cbn [kind content] in *.
  assert (Kl : tokenKind l = StringRegular)
    by (rewrite Xb in K; cbn in K; rewrite Xa in K; exact K).
  destruct (classify_regular _ _ _ _ C Kl) as (b & str & Eb & L).
  assert (N1 : isNumber l1 = false) by (rewrite Xa, L; reflexivity).
  rewrite N1 in E2. injection E2 as <-.
  rewrite L in E1. cbn [isStringRegular] in E1.
  exact (stringRegularLoop_end
           jsonFile i _
           (mkLocals (string_of_byte b) (string_of_byte b) StringRegular 1
                     true str true false)
           l1 E1 (string_of_byte_nonempty b)).
Qed.

(** After a StringRegular token that is not closed, with the cursor at a
    backslash, the iteration stores an escape token. *)
Lemma iteration_backslash (jsonFile : list byte) (i i' : nat)
      (tokenArray tokenArray' : list Token) (previousToken : Token) :
  lastToken tokenArray = Some previousToken ->
  kind previousToken = StringRegular ->
  content previousToken <> [] -> ~ closed (content previousToken) ->
  nth_error jsonFile i = Some x5c ->
  iteration jsonFile i tokenArray = Ok (tokenArray', i') ->
  exists t, tokenArray' = tokenArray ++ [t] /\ kind t = StringEscaped.
Proof.
  intros L K N O E H.
  destruct (iteration_Ok _ _ _ _ _ H)
    as (l & l1 & l2 & C & _ & _ & (c & x & n & X) & -> & _).
  destruct (classify_backslash _ _ _ _ _ L K N O E C) as [Kl Tl].
  rewrite X. cbn [isToken tokenContent tokenKind]. rewrite Tl, Kl.
  eexists. split; reflexivity.
Qed.

Lemma lastToken_snoc (tokenArray : list Token) (t : Token) :
  lastToken (tokenArray ++ [t]) = Some t.
Proof.
  unfold lastToken.
  rewrite length_app, Nat.add_sub, nth_error_app2, Nat.sub_diag by lia.
  reflexivity.
Qed.

(** The token that an iteration stores is not empty. *)
Lemma iteration_nonempty (jsonFile : list byte) (i i' : nat)
      (tokenArray tokenArray' : list Token) :
  (i < List.length jsonFile)%nat -> Forall nonempty tokenArray ->
  iteration jsonFile i tokenArray = Ok (tokenArray', i') ->
  Forall nonempty tokenArray'.
Proof.
  intros Lt N H.
  destruct (iteration_spec jsonFile i tokenArray Lt N)
    as [P | (n & _ & [E | (t & E & Nt & _)])].
  - red in P. congruence.
  - rewrite E in H. injection H as <- <-. exact N.
  - rewrite E in H. injection H as <- <-.
    apply Forall_app. split; [exact N|]. constructor; [exact Nt|constructor].
Qed.

(** ** X8: a string token that is not closed is followed by an escape *)

Lemma closed_dec (s : gostring) : closed s \/ ~ closed s.
Proof.
  destruct s as [|x s] using rev_ind.
  - right. intros (s' & _ & E). destruct s'; discriminate E.
  - clear IHs. destruct (Byte.eqb x x22) eqn:Q.
    + apply byte_eqb_true in Q. subst x. destruct s as [|y s].
      * right. intros C. apply closed_snoc in C. destruct C as [_ C].
        apply C. reflexivity.
      * left. apply closed_snoc. split; [reflexivity | discriminate].
    + right. intros C. apply closed_snoc in C. destruct C as [-> _].
      discriminate Q.
Qed.

(** X8.  In the token array that [getTokens] returns, a StringRegular token
    either ends with the quote that closes its string or is directly
    followed by a StringEscaped token: the string loop stops only after a
    quote or at a backslash, and the backslash starts the next token.  In
    particular the last token of the array is never a StringRegular token
    that is not closed. *)
Theorem getTokens_strings_closed (jsonFile : list byte)
        (tokenArray : list Token) :
  getTokens jsonFile = Ok tokenArray ->
  (forall (before after : list Token) (t next : Token),
      tokenArray = before ++ t :: next :: after ->
      kind t = StringRegular ->
      closed (content t) \/ kind next = StringEscaped)
  /\ (forall (before : list Token) (t : Token),
         tokenArray = before ++ [t] ->
         kind t = StringRegular -> closed (content t)).
Proof.
  intros H. unfold getTokens in H.
  set (Adj := fun ta : list Token =>
                forall before after t next,
                  ta = before ++ t :: next :: after ->
                  kind t = StringRegular ->
                  closed (content t) \/ kind next = StringEscaped).
  set (Last := fun (i : nat) (ta : list Token) =>
                 forall t, lastToken ta = Some t -> kind t = StringRegular ->
                           closed (content t)
                           \/ nth_error jsonFile i = Some x5c).
  set (P := fun (i : nat) (ta : list Token) =>
              Forall nonempty ta /\ Adj ta /\ Last i ta).
  assert (Step : forall i i' ta ta',
             (i < List.length jsonFile)%nat -> P i ta ->
             iteration jsonFile i ta = Ok (ta', i') -> P i' ta').
  { intros i i1 ta ta1 Lt (N & A & L) E.
    split; [exact (iteration_nonempty _ _ _ _ _ Lt N E)|].
    assert (Snoc : forall t before after x next,
               ta ++ [t] = before ++ x :: next :: after ->
               (lastToken ta = Some x /\ next = t)
               \/ exists after', ta = before ++ x :: next :: after').
    { intros t before after x next S.
      change (before ++ x :: next :: after)
        with (before ++ [x] ++ next :: after) in S.
      rewrite app_assoc in S.
      destruct (snoc_split _ _ _ _ _ S) as [(_ & <- & ->) | (a' & _ & ->)].
      - left. split; [apply lastToken_snoc | reflexivity].
      - right. exists a'. rewrite <- app_assoc. reflexivity. }
    assert (Cases : (exists p, lastToken ta = Some p
                               /\ kind p = StringRegular
                               /\ ~ closed (content p))
                    \/ (forall p, lastToken ta = Some p ->
                                  kind p = StringRegular ->
                                  closed (content p))).
    { destruct (lastToken ta) as [p|]; [|right; discriminate].
      destruct (Z.eq_dec (kind p) StringRegular) as [K | K].
      - destruct (closed_dec (content p)) as [C | O].
        + right. intros p' Ep _. injection Ep as <-. exact C.
        + left. exists p. auto.
      - right. intros p' Ep K'. injection Ep as <-. contradiction. }
    destruct Cases as [(p & Lp & Kp & Op) | G].
    - assert (Np : content p <> []).
      { rewrite Forall_forall in N. exact (N p (lastToken_In _ _ Lp)). }
      destruct (L p Lp Kp) as [C | B]; [contradiction|].
      destruct (iteration_backslash _ _ _ _ _ _ Lp Kp Np Op B E)
        as (t & -> & Kt).
      split.
      + intros before after x next S Kx.
        destruct (Snoc _ _ _ _ _ S) as [(_ & ->) | (a' & S')].
        * right. exact Kt.
        * exact (A _ _ _ _ S' Kx).
      + intros t' Lt' Kt'. rewrite lastToken_snoc in Lt'.
        injection Lt' as <-. rewrite Kt in Kt'. discriminate Kt'.
    - destruct (iteration_appends _ _ _ _ _ E) as [-> | (t & -> & _)].
      + split; [exact A|]. intros t Lt' Kt. left. exact (G t Lt' Kt).
      + split.
        * intros before after x next S Kx.
          destruct (Snoc _ _ _ _ _ S) as [(Lx & _) | (a' & S')].
          -- left. exact (G x Lx Kx).
          -- exact (A _ _ _ _ S' Kx).
        * intros t' Lt' Kt'. rewrite lastToken_snoc in Lt'.
          injection Lt' as <-. exact (iteration_regular _ _ _ _ _ E Kt'). }
  assert (P0 : P 0%nat []).
  { split; [constructor|]. split.
    - intros before after t next S. destruct before; discriminate S.
    - intros t Lt. discriminate Lt. }
  destruct (getTokensFrom_invariant P jsonFile Step _ _ _ _ P0 H)
    as (i1 & Ge & _ & A & L).
  split; [exact A|].
  intros before t -> K. destruct (L t (lastToken_snoc _ _) K) as [C | B];
    [exact C|].
  exfalso. apply nth_error_None in Ge. congruence.
Qed.

Lemma getTokens_strings_closed_witness :
  getTokens MoreExamples.escaped_quote
  = Ok ([mkToken (lit "[") ArrayOpen]
          ++ mkToken (dquote ++ lit "a") StringRegular
          :: mkToken (backslash ++ dquote) StringEscaped
          :: [mkToken dquote StringClose; mkToken (lit "]") ArrayClose])
  /\ (closed (dquote ++ lit "a") \/ StringEscaped = StringEscaped).
Proof.
  assert (H : getTokens MoreExamples.escaped_quote
              = Ok ([mkToken (lit "[") ArrayOpen]
                      ++ mkToken (dquote ++ lit "a") StringRegular
                      :: mkToken (backslash ++ dquote) StringEscaped
                      :: [mkToken dquote StringClose;
                          mkToken (lit "]") ArrayClose]))
    by (vm_compute; reflexivity).
  split; [exact H|].
  exact (proj1 (getTokens_strings_closed _ _ H) _ _ _ _ eq_refl eq_refl).
Defined.

(** * The contents of the tokens *)

Lemma firstn_succ {A : Type} (xs : list A) :
  forall (n : nat) (b : A),
    nth_error xs n = Some b -> firstn (S n) xs = firstn n xs ++ [b].
Proof.
  induction xs as [|x xs IH]; intros [|n] b E; try discriminate E.
  - injection E as ->. reflexivity.
  - cbn [firstn app]. f_equal. apply IH, E.
Qed.

Lemma slice_succ (jsonFile : list byte) (i n : nat) (b : byte) :
  nth_error jsonFile (i + n) = Some b ->
  slice jsonFile i (S n) = slice jsonFile i n ++ [b].
Proof.
  intros E. unfold slice. apply firstn_succ.
  rewrite nth_error_skipn. exact E.
Qed.

Lemma text_app (a b : list byte) : text (a ++ b) = text a ++ text b.
Proof. unfold text. rewrite map_app, concat_app. reflexivity. Qed.

Lemma reads_append (jsonFile : list byte) (i : nat) (l : locals) (b : byte) :
  nth_error jsonFile (i + tokenLength l) = Some b ->
  reads jsonFile i l ->
  reads jsonFile i
        (appendCharacter (setCurrentCharacter (string_of_byte b) l)).
Proof.
  intros E (C & L1 & L2). destruct l as [c s k n t st sr nu].
  unfold reads, appendCharacter, setContent, setCurrentCharacter in *.
  cbn [tokenContent tokenLength currentCharacter] in *.
  assert (Lt : (i + n < List.length jsonFile)%nat)
    by (apply nth_error_Some; congruence).
  rewrite (slice_succ _ _ _ _ E), text_app, C.
  split; [|lia]. f_equal. unfold text. cbn [map List.concat].
  symmetry. apply app_nil_r.
Qed.

Lemma reads_current (jsonFile : list byte) (i : nat) (l : locals)
      (c : gostring) :
  reads jsonFile i l -> reads jsonFile i (setCurrentCharacter c l).
Proof. destruct l. exact (fun H => H). Qed.

Lemma reads_first (jsonFile : list byte) (i : nat) (b : byte)
      (c : gostring) (k : Z) (t st sr nu : bool) :
  nth_error jsonFile i = Some b ->
  reads jsonFile i (mkLocals c (string_of_byte b) k 1 t st sr nu).
Proof.
  intros E. unfold reads. cbn [tokenContent tokenLength].
  assert (Lt : (i < List.length jsonFile)%nat)
    by (apply nth_error_Some; congruence).
  rewrite <- (Nat.add_0_r i) in E.
  rewrite (slice_succ _ _ _ _ E). unfold slice, text.
  cbn [firstn app map List.concat]. rewrite app_nil_r.
  split; [reflexivity | lia].
Qed.

Lemma stringRegularLoop_reads (jsonFile : list byte) (i fuel : nat) :
  forall l l' : locals,
    stringRegularLoop fuel jsonFile (i + tokenLength l) l = Ok l' ->
    reads jsonFile i l -> reads jsonFile i l'.
Proof.
  induction fuel as [|fuel IH]; intros l l' H R; [discriminate|].
  cbn [stringRegularLoop] in H. unfold index in H.
  destruct (nth_error jsonFile (i + tokenLength l)) as [b|] eqn:E;
    [|discriminate].
  cbn [bind] in H.
  destruct (streq _ dquote).
  { injection H as <-. apply reads_append; assumption. }
  destruct (streq _ backslash).
  { injection H as <-. apply reads_current, R. }
  apply (IH (appendCharacter (setCurrentCharacter (string_of_byte b) l)));
    [|apply reads_append; assumption].
  replace (tokenLength
             (appendCharacter (setCurrentCharacter (string_of_byte b) l)))
    with (S (tokenLength l)) by (destruct l; reflexivity).
  rewrite Nat.add_succ_r. exact H.
Qed.

Lemma numberLoop_reads (jsonFile : list byte) (i fuel : nat) :
  forall l l' : locals,
    numberLoop fuel jsonFile (i + tokenLength l) l = Ok l' ->
    reads jsonFile i l -> reads jsonFile i l'.
Proof.
  induction fuel as [|fuel IH]; intros l l' H R; [discriminate|].
  cbn [numberLoop] in H. unfold index in H.
  destruct (nth_error jsonFile (i + tokenLength l)) as [b|] eqn:E;
    [|discriminate].
  cbn [bind] in H.
  destruct (validNextNumCharacter _).
  2:{ injection H as <-. apply reads_current, R. }
  apply (IH (appendCharacter (setCurrentCharacter (string_of_byte b) l)));
    [|apply reads_append; assumption].
  replace (tokenLength
             (appendCharacter (setCurrentCharacter (string_of_byte b) l)))
    with (S (tokenLength l)) by (destruct l; reflexivity).
  rewrite Nat.add_succ_r. exact H.
Qed.

Lemma unicodeLoop_reads (jsonFile : list byte) (i n : nat) :
  forall l l' : locals,
    unicodeLoop n jsonFile (i + tokenLength l) l = Ok l' ->
    reads jsonFile i l -> reads jsonFile i l'.
Proof.
  induction n as [|n IH]; intros l l' H R; cbn [unicodeLoop] in H.
  { injection H as <-. exact R. }
  unfold index in H.
  destruct (nth_error jsonFile (i + tokenLength l)) as [b|] eqn:E;
    [|discriminate].
  cbn [bind] in H.
  apply (IH (appendCharacter (setCurrentCharacter (string_of_byte b) l)));
    [|apply reads_append; assumption].
  replace (tokenLength
             (appendCharacter (setCurrentCharacter (string_of_byte b) l)))
    with (S (tokenLength l)) by (destruct l; reflexivity).
  rewrite Nat.add_succ_r. exact H.
Qed.

(** The classified token is a literal or the text of the bytes at the
    cursor. *)
Lemma classify_reads (jsonFile : list byte) (i : nat)
      (tokenArray : list Token) (l : locals) :
  classify jsonFile i tokenArray = Ok l ->
  (exists b,
      In (b, tokenContent l, tokenKind l) literals
      /\ isToken l = true
      /\ isStringRegular l = false /\ isNumber l = false)
  \/ reads jsonFile i l.
Proof.
  intros H. unfold classify, index in H.
  destruct (nth_error jsonFile i) as [b|] eqn:Eb; [|discriminate].
  cbn [bind] in H.
  destruct (checkPrevious tokenArray (defaults (string_of_byte b)))
    as [l0| |] eqn:C; cbn [bind] in H; try discriminate.
  apply checkPrevious_cases in C. destruct C as [-> | [-> | [-> C]]].
  - rewrite classifyString_outside in H
      by (rewrite classifyCharacter_isString; reflexivity).
    injection H as <-.
    destruct (classifyCharacter_table b)
      as [(word & k & I & ->) | (k & t & sr & nu & -> & _)].
    + left. exists b. cbn. auto.
    + right. apply reads_first, Eb.
  - right. rewrite classifyCharacter_inString in H by reflexivity.
    destruct (streq (string_of_byte b) backslash) eqn:B.
    2:{ destruct (streq (string_of_byte b) dquote) eqn:Q.
        - apply streq_true in Q.
          rewrite classifyString_quote in H by (reflexivity || exact Q).
          injection H as <-. apply reads_first, Eb.
        - rewrite classifyString_plain in H by (reflexivity || assumption).
          injection H as <-. apply reads_first, Eb. }
    apply streq_true in B.
    rewrite classifyString_escape in H by (reflexivity || exact B).
    unfold index in H.
    destruct (nth_error jsonFile (i + 1)) as [b1|] eqn:E1; [|discriminate].
    cbn [bind] in H. cbv zeta in H.
    assert (R : reads jsonFile i
                      (setKind StringEscaped
                               (setIsString true
                                            (defaults (string_of_byte b)))))
      by (apply reads_first, Eb).
    destruct (Byte.eqb b1 "u").
    + exact (unicodeLoop_reads
               jsonFile i 5
               (setCurrentCharacter
                  (string_of_byte b1)
                  (setKind StringEscaped
                           (setIsString true (defaults (string_of_byte b)))))
               l H (reads_current _ _ _ _ R)).
    + injection H as <-. apply reads_append; [exact E1 | exact R].
  - right. rewrite classifyCharacter_inString in H by reflexivity.
    rewrite classifyString_close in H by (reflexivity || exact C).
    injection H as <-. apply reads_first, Eb.
Qed.

Lemma classified_flags (b : byte) (l : locals) :
  classified b l ->
  (isStringRegular l = true -> tokenLength l = 1%nat /\ isNumber l = false)
  /\ (isNumber l = true -> tokenLength l = 1%nat).
Proof. intros K. destruct K; cbn; split; intros; auto; discriminate. Qed.

Lemma reads_fromInput (jsonFile : list byte) (i : nat) (l : locals) :
  reads jsonFile i l ->
  fromInput jsonFile (mkToken (tokenContent l) (tokenKind l)).
Proof.
  intros (C & L1 & L2).
  exists (firstn i jsonFile), (slice jsonFile i (tokenLength l)),
    (skipn (tokenLength l) (skipn i jsonFile)).
  unfold slice in *. rewrite !firstn_skipn.
  split; [reflexivity|]. split; [|exact C].
  intros E. apply (f_equal (@List.length byte)) in E.
  rewrite length_firstn, length_skipn in E. simpl in E. lia.
Qed.

(** The token that an iteration stores is a literal or comes from the
    input. *)
Lemma iteration_content (jsonFile : list byte) (i i' : nat)
      (tokenArray : list Token) (t : Token) :
  iteration jsonFile i tokenArray = Ok (tokenArray ++ [t], i') ->
  isLiteral t \/ fromInput jsonFile t.
Proof.
  intros H.
  destruct (iteration_token _ _ _ _ _ H)
    as (l & l1 & l2 & C & E1 & E2 & (c1 & xa & n1 & Xa) & _ & -> & _).
  destruct (classify_cases _ _ _ _ C) as (b & _ & K).
  apply classified_flags in K. destruct K as [KR KN].
  destruct (classify_reads _ _ _ _ C) as [(b' & I & _ & R & N) | Rd].
  - left. rewrite R in E1. injection E1 as <-. rewrite N in E2.
    injection E2 as <-. exists b'. exact I.
  - right. apply (reads_fromInput jsonFile i).
    destruct (isStringRegular l) eqn:R.
    + destruct (KR eq_refl) as [L N].
      assert (Rd1 : reads jsonFile i l1).
      { eapply (stringRegularLoop_reads jsonFile i); [|exact Rd].
        rewrite L. exact E1. }
      assert (N1 : isNumber l1 = false) by (rewrite Xa; exact N).
      rewrite N1 in E2. injection E2 as <-. exact Rd1.
    + injection E1 as <-. destruct (isNumber l) eqn:N.
      * eapply (numberLoop_reads jsonFile i); [|exact Rd].
        rewrite (KN eq_refl). exact E2.
      * injection E2 as <-. exact Rd.
Qed.

Lemma getTokens_contents (jsonFile : list byte) (tokenArray : list Token) :
  getTokens jsonFile = Ok tokenArray ->
  Forall (fun t => isLiteral t \/ fromInput jsonFile t) tokenArray.
Proof.
  intros H. unfold getTokens in H.
  set (P := fun (_ : nat) (ta : list Token) =>
              Forall (fun t => isLiteral t \/ fromInput jsonFile t) ta).
  assert (Step : forall i i' ta ta',
             (i < List.length jsonFile)%nat -> P i ta ->
             iteration jsonFile i ta = Ok (ta', i') -> P i' ta').
  { unfold P. intros i i1 ta ta1 _ F E.
    destruct (iteration_appends _ _ _ _ _ E) as [-> | (t & -> & _)];
      [exact F|].
    apply Forall_app. split; [exact F|].
    constructor; [exact (iteration_content _ _ _ _ _ E) | constructor]. }
  assert (P0 : P 0%nat []) by constructor.
  destruct (getTokensFrom_invariant P jsonFile Step _ _ _ _ P0 H)
    as (i1 & _ & F).
  exact F.
Qed.

(** ** X9: where the contents of the tokens come from *)

(** X9.  The content of every token that [getTokens] returns is the full
    text of one of the three literals, whatever the input has after the
    first letter, or the text of a part of the input that is not empty: the
    bytes of the token in the input, in order, each converted by
    [string(b)].  When the input is ASCII the content of such a token is a
    part of the input as it is. *)
Theorem getTokens_content_from_input (jsonFile : list byte)
        (tokenArray : list Token) :
  getTokens jsonFile = Ok tokenArray ->
  Forall (fun t => isLiteral t \/ fromInput jsonFile t) tokenArray
  /\ (Forall ascii jsonFile ->
      Forall (fun t => isLiteral t
                       \/ (content t <> []
                           /\ exists pre post,
                               jsonFile = pre ++ content t ++ post))
             tokenArray).
Proof.
  intros H. pose proof (getTokens_contents _ _ H) as F.
  split; [exact F|]. intros A.
  eapply Forall_impl; [|exact F]. intros t [L | (pre & bs & post & E & N & C)];
    [left; exact L | right].
  assert (Ab : Forall ascii bs).
  { rewrite E in A. apply Forall_app in A. destruct A as [_ A].
    apply Forall_app in A. tauto. }
  rewrite C, (text_ascii bs Ab). split; [exact N|].
  exists pre, post. exact E.
Qed.

Lemma getTokens_content_from_input_witness :
  exists tokenArray,
    getTokens MoreExamples.not_true = Ok tokenArray
    /\ Forall (fun t => isLiteral t \/ fromInput MoreExamples.not_true t)
              tokenArray.
Proof.
  eexists. split; [vm_compute; reflexivity|].
  apply (getTokens_content_from_input MoreExamples.not_true).
  vm_compute. reflexivity.
Defined.

(** * Further properties of the printer *)

(** ** X10: every token of the tokenizer is printed in a colour *)

Lemma addColor_declared (token : Token) :
  In (kind token) declaredKinds ->
  exists color,
    List.length color = 7%nat
    /\ addColor token = (spanOpen color, lit "</span>").
Proof.
  intros I. unfold addColor, spanOpen.
  repeat (destruct I as [<- | I];
          [eexists; split; [|reflexivity]; reflexivity|]).
  destruct I.
Qed.

(** X10.  [addColor] wraps a token in a span with one of its seven-character
    colours exactly when the kind of the token is one of the thirteen
    declared kinds; for any other kind both tags are empty.  Every token that
    [getTokens] returns has a declared kind, so the branch without colour
    (line 303) is never taken for the tokens of the program. *)
Theorem addColor_span :
  (forall token : Token,
      (In (kind token) declaredKinds ->
       exists color,
         List.length color = 7%nat
         /\ addColor token = (spanOpen color, lit "</span>"))
      /\ (~ In (kind token) declaredKinds -> addColor token = ([], [])))
  /\ (forall (jsonFile : list byte) (tokenArray : list Token),
         getTokens jsonFile = Ok tokenArray ->
         Forall (fun token =>
                   exists color,
                     List.length color = 7%nat
                     /\ addColor token = (spanOpen color, lit "</span>"))
                tokenArray).
Proof.
  split.
  - intros token. split; [apply addColor_declared|].
    intros N. unfold addColor.
    assert (F : forall k, In k declaredKinds -> (kind token =? k) = false).
    { intros k I. apply Z.eqb_neq. intros E. apply N. rewrite E. exact I. }
    rewrite !F by (vm_compute; tauto). reflexivity.
  - intros jsonFile tokenArray H.
    eapply Forall_impl; [|exact (getTokens_kinds _ _ H)].
    intros t. apply addColor_declared.
Qed.

Lemma addColor_span_witness :
  exists tokenArray,
    getTokens Examples.object = Ok tokenArray
    /\ Forall (fun token =>
                 exists color,
                   List.length color = 7%nat
                   /\ addColor token = (spanOpen color, lit "</span>"))
              tokenArray.
Proof.
  eexists. split; [vm_compute; reflexivity|].
  apply (proj2 addColor_span Examples.object). vm_compute. reflexivity.
Defined.

(** ** X11-X14: the text that [escapeString] returns *)

(** The comparisons of [string(character)] with the five one-character
    strings decide whether the code point is one of the five. *)
Lemma escapeCharacter_escaped (r : Z) : escapeCharacter r = escaped r.
Proof.
  destruct (find (fun e => fst e =? r) entities) as [e|] eqn:F.
  - unfold escaped. rewrite F. apply find_some in F. destruct F as [I E].
    apply Z.eqb_eq in E.
    repeat (destruct I as [<- | I]; [simpl in E; subst r; reflexivity|]).
    destruct I.
  - unfold escaped. rewrite F.
    assert (N : forall c : byte,
               In (byteval c) (map fst entities) ->
               streq (string_of_rune r) [c] = false).
    { intros c I. apply streq_false. intros E.
      assert (R : r = byteval c).
      { unfold string_of_rune in E.
        destruct (encoderune_bytes r) as [[B E'] | H].
        - rewrite E' in E. injection E as <-.
          rewrite byteval_mkbyte by lia. reflexivity.
        - rewrite E in H. inversion H as [|? ? G _]; subst.
          exfalso. revert G.
          repeat (destruct I as [<- | I]; [vm_compute; tauto|]).
          destruct I. }
      apply in_map_iff in I. destruct I as (e & Ee & I).
      apply (find_none _ _ F) in I. apply Z.eqb_neq in I. congruence. }
    unfold escapeCharacter.
    change (lit "<") with [x3c]. change (lit ">") with [x3e].
    change (lit "&") with [x26]. change dquote with [x22].
    change (lit "'") with [x27].
    rewrite !N by (vm_compute; tauto). reflexivity.
Qed.

Lemma validUTF8_nil : validUTF8 [].
Proof. exists []. split; [constructor | reflexivity]. Qed.

Lemma validUTF8_app (a b : gostring) :
  validUTF8 a -> validUTF8 b -> validUTF8 (a ++ b).
Proof.
  intros (ra & Va & ->) (rb & Vb & ->). exists (ra ++ rb).
  split; [apply Forall_app; auto|]. rewrite map_app, concat_app. reflexivity.
Qed.

Lemma validUTF8_encoderune (r : Z) :
  validRune r -> validUTF8 (utf8.encoderune r).
Proof.
  intros V. exists [r]. split; [constructor; [exact V | constructor]|].
  simpl. rewrite app_nil_r. reflexivity.
Qed.

Lemma validUTF8_ascii (s : gostring) : Forall ascii s -> validUTF8 s.
Proof.
  induction 1 as [|b s A _ IH]; [apply validUTF8_nil|].
  change (b :: s) with ([b] ++ s). apply validUTF8_app; [|exact IH].
  rewrite <- (string_of_byte_ascii b A).
  apply validUTF8_encoderune, validRune_byteval.
Qed.

Lemma validUTF8_escaped (r : Z) : validRune r -> validUTF8 (escaped r).
Proof.
  intros V. unfold escaped.
  destruct (find (fun e => fst e =? r) entities) as [e|] eqn:F;
    [|apply validUTF8_encoderune, V].
  apply find_some in F. destruct F as [I _]. apply validUTF8_ascii.
  repeat (destruct I as [<- | I];
          [repeat constructor; vm_compute; reflexivity|]).
  destruct I.
Qed.

Lemma rangeString_validRune (s : gostring) :
  Forall validRune (utf8.rangeString s).
Proof.
  assert (T : Forall (fun _ : byte => True) s)
    by (apply Forall_forall; trivial).
  pose proof (rangeFrom_spec _ s T 0%nat) as R.
  eapply Forall_impl; [|exact R]. simpl. tauto.
Qed.

Lemma rangeString_app_valid (rs : list Z) (rest : gostring) :
  Forall validRune rs ->
  utf8.rangeString (List.concat (map utf8.encoderune rs) ++ rest)
  = rs ++ utf8.rangeString rest.
Proof.
  induction 1 as [|r rs V _ IH]; [reflexivity|].
  cbn [map List.concat]. rewrite <- app_assoc.
  rewrite rangeString_encoderune, IH by assumption. reflexivity.
Qed.

(** X11.  The text that [escapeString] returns is well-formed UTF-8 whatever
    the bytes of the token are: the range loop decodes every byte that is
    no part of a well-formed character as U+FFFD, and [string(character)]
    encodes it as such. *)
Theorem escapeString_valid_utf8 (token : Token) :
  validUTF8 (escapeString token).
Proof.
  rewrite escapeString_concat.
  induction (rangeString_validRune (content token)) as [|r rs V _ IH];
    [apply validUTF8_nil|].
  cbn [map List.concat]. apply validUTF8_app; [|exact IH].
  rewrite escapeCharacter_escaped. apply validUTF8_escaped, V.
Qed.

(** X12.  On a content that is well-formed UTF-8 and has none of the five
    characters [<], [>], [&], the double and the single quote,
    [escapeString] returns the content as it is. *)
Theorem escapeString_identity (s : gostring) (k : Z) :
  validUTF8 s -> Forall (fun b => ~ special b) s ->
  escapeString (mkToken s k) = s.
Proof.
  intros (rs & V & E) N. rewrite escapeString_concat. cbn [content].
  pose proof (rangeFrom_spec _ s N 0%nat) as R.
  fold (utf8.rangeString s) in R.
  assert (Rs : utf8.rangeString s = rs)
    by (rewrite E; apply rangeString_concat_encoderune, V).
  rewrite Rs in *. rewrite E. f_equal. apply map_ext_in. intros r I.
  rewrite Forall_forall in R. destruct (R r I) as [Vr A].
  apply escapeCharacter_plain; assumption.
Qed.

Lemma escapeString_identity_witness :
  validUTF8 [xc3; xa9; x61]
  /\ escapeString (mkToken [xc3; xa9; x61] StringRegular) = [xc3; xa9; x61].
Proof.
  assert (V : validUTF8 [xc3; xa9; x61]).
  { exists [0xE9; 0x61]. split; [|vm_compute; reflexivity].
    repeat (apply Forall_cons || apply Forall_nil);
      unfold validRune, utf8.maxRune, utf8.surrogateMin, utf8.surrogateMax;
      lia. }
  split; [exact V|].
  apply (escapeString_identity [xc3; xa9; x61] StringRegular V).
  repeat constructor; intros [E|[E|[E|[E|E]]]]; discriminate.
Defined.

(** X13.  On a content of ASCII bytes [escapeString] works byte by byte:
    each of the five characters is replaced by its entity and every other
    byte is kept. *)
Theorem escapeString_ascii (s : gostring) (k : Z) :
  Forall ascii s ->
  escapeString (mkToken s k)
  = List.concat (map (fun b => match find (fun e => fst e =? byteval b)
                                          entities with
                               | Some e => snd e
                               | None => [b]
                               end) s).
Proof.
  intros A. rewrite escapeString_concat. cbn [content].
  assert (T : text s = s).
  { unfold text. induction A as [|b s Ab _ IH]; [reflexivity|].
    cbn [map List.concat]. rewrite IH, string_of_byte_ascii by exact Ab.
    reflexivity. }
  rewrite <- T at 1. rewrite rangeString_string_of_byte, map_map.
  f_equal. apply map_ext_in. intros b I. rewrite escapeCharacter_escaped.
  unfold escaped. destruct (find _ entities); [reflexivity|].
  rewrite Forall_forall in A. exact (string_of_byte_ascii b (A b I)).
Qed.

Lemma escapeString_ascii_witness :
  Forall ascii (lit "a<b & 'c'")
  /\ escapeString (mkToken (lit "a<b & 'c'") StringRegular)
     = lit "a&lt;b &amp; &apos;c&apos;".
Proof.
  assert (A : Forall ascii (lit "a<b & 'c'"))
    by (repeat constructor; vm_compute; reflexivity).
  split; [exact A|].
  pose proof (escapeString_ascii (lit "a<b & 'c'") StringRegular A) as W.
  vm_compute in W. vm_compute. exact W.
Defined.

(** X14.  [escapeString] distributes over a concatenation whose first part
    is well-formed UTF-8.  It does not in general: when a character is cut
    in two, each part is escaped to U+FFFD. *)
Theorem escapeString_app :
  (forall (s1 s2 : gostring) (k k1 k2 : Z),
      validUTF8 s1 ->
      escapeString (mkToken (s1 ++ s2) k)
      = escapeString (mkToken s1 k1) ++ escapeString (mkToken s2 k2))
  /\ escapeString (mkToken ([xc3] ++ [xa9]) StringRegular)
     <> escapeString (mkToken [xc3] StringRegular)
        ++ escapeString (mkToken [xa9] StringRegular).
Proof.
  split; [|vm_compute; discriminate].
  intros s1 s2 k k1 k2 (rs & V & ->).
  rewrite !escapeString_concat. cbn [content].
  rewrite rangeString_app_valid, rangeString_concat_encoderune by exact V.
  rewrite map_app, concat_app. reflexivity.
Qed.

Lemma escapeString_app_witness :
  validUTF8 (lit "<a")
  /\ escapeString (mkToken (lit "<a" ++ [xff]) StringRegular)
     = lit "&lt;a" ++ [xef; xbf; xbd].
Proof.
  assert (V : validUTF8 (lit "<a")).
  { apply validUTF8_ascii. repeat constructor; vm_compute; reflexivity. }
  split; [exact V|].
  pose proof (proj1 escapeString_app (lit "<a") [xff] StringRegular
                    StringRegular StringRegular V) as W.
  vm_compute in W. vm_compute. exact W.
Defined.

(** ** X15: the code points of the tokens of the tokenizer *)

(** X15.  The content of every token that [getTokens] returns is
    well-formed UTF-8 and holds code points below 256 only, whatever the
    bytes of the input are: a byte of 0x80 and above has become the code
    point of that number.  So the range loop of [escapeString] never meets
    a byte that it has to replace by U+FFFD when the token comes from
    [getTokens]. *)
Theorem getTokens_code_points (jsonFile : list byte)
        (tokenArray : list Token) :
  getTokens jsonFile = Ok tokenArray ->
  Forall (fun t => validUTF8 (content t)
                   /\ Forall (fun r => 0 <= r < 256)
                             (utf8.rangeString (content t))
                   /\ escapeString t
                      = List.concat (map escaped
                                         (utf8.rangeString (content t))))
         tokenArray.
Proof.
  intros H. eapply Forall_impl; [|exact (getTokens_contents _ _ H)].
  intros t D.
  assert (T : exists bs, content t = text bs).
  { destruct D as [(b & I) | (pre & bs & post & _ & _ & C)];
      [|exists bs; exact C].
    repeat (destruct I as [I | I];
            [injection I as _ <- _;
             match goal with |- exists bs, ?w = _ => exists w end;
             vm_compute; reflexivity|]).
    destruct I. }
  destruct T as (bs & C). split; [|split].
  - rewrite C. exists (map byteval bs). split.
    + apply Forall_forall. intros r I. apply in_map_iff in I.
      destruct I as (b & <- & _). apply validRune_byteval.
    + unfold text, string_of_byte, string_of_rune. rewrite map_map.
      reflexivity.
  - rewrite C, rangeString_string_of_byte. apply Forall_forall.
    intros r I. apply in_map_iff in I. destruct I as (b & <- & _).
    apply byteval_range.
  - rewrite escapeString_concat. f_equal. apply map_ext.
    apply escapeCharacter_escaped.
Qed.

Lemma getTokens_code_points_witness :
  exists tokenArray,
    getTokens Examples.accent = Ok tokenArray
    /\ Forall (fun t => validUTF8 (content t)
                        /\ Forall (fun r => 0 <= r < 256)
                                  (utf8.rangeString (content t))
                        /\ escapeString t
                           = List.concat
                               (map escaped
                                    (utf8.rangeString (content t))))
              tokenArray.
Proof.
  eexists. split; [vm_compute; reflexivity|].
  apply (getTokens_code_points Examples.accent).
  vm_compute. reflexivity.
Defined.

(** ** X16-X19: white space and indentation *)

Lemma styleHTML_addWhiteSpace (token : Token) (indentationLevel : Z)
      (isToIndent : bool) :
  styleHTML token indentationLevel isToIndent
  = (let '(whiteSpacePre, whiteSpacePost, level, flag) :=
       addWhiteSpace token indentationLevel isToIndent in
     (whiteSpacePre ++ styled token ++ whiteSpacePost, level, flag)).
Proof.
  unfold styleHTML, styled.
  destruct (addColor token) as [colorPre colorPost].
  destruct (addWhiteSpace token indentationLevel isToIndent)
    as [[[pre post] level] flag].
  cbn [fst snd]. rewrite <- !app_assoc. reflexivity.
Qed.

Lemma whiteSpace_indentStringOf (indentationLevel : Z) :
  whiteSpace (indentStringOf indentationLevel).
Proof.
  rewrite indentStringOf_tabs. apply Forall_forall. intros b I.
  apply repeat_spec in I. subst b. vm_compute. tauto.
Qed.

Lemma whiteSpace_app (a b : gostring) :
  whiteSpace a -> whiteSpace b -> whiteSpace (a ++ b).
Proof. intros A B. apply Forall_app. split; assumption. Qed.

Lemma addWhiteSpace_whiteSpace (token : Token) (indentationLevel : Z)
      (isToIndent : bool) :
  whiteSpace (fst (fst (fst (addWhiteSpace token indentationLevel isToIndent))))
  /\ whiteSpace
       (snd (fst (fst (addWhiteSpace token indentationLevel isToIndent)))).
Proof.
  pose proof (whiteSpace_indentStringOf indentationLevel) as I.
  assert (T : whiteSpace tab) by (repeat constructor; vm_compute; tauto).
  assert (N : whiteSpace newline) by (repeat constructor; vm_compute; tauto).
  assert (S : whiteSpace (lit " ")) by (repeat constructor; vm_compute; tauto).
  assert (E : whiteSpace []) by constructor.
  assert (P : whiteSpace (if isToIndent
                          then indentStringOf indentationLevel ++ tab
                          else [])).
  { destruct isToIndent; [apply whiteSpace_app|]; assumption. }
  unfold addWhiteSpace.
  repeat match goal with
  | |- context [if ?c then (_, _, _, _) else _] => destruct c
  end; cbn [fst snd]; split; try assumption.
  apply whiteSpace_app; assumption.
Qed.

Lemma printTokensFrom_out (tokenArray : list Token) :
  forall (indentationLevel : Z) (isToIndent : bool) (out : gostring),
    printTokensFrom tokenArray indentationLevel isToIndent out
    = out ++ printTokensFrom tokenArray indentationLevel isToIndent [].
Proof.
  induction tokenArray as [|token rest IH]; intros lv ind out;
    cbn [printTokensFrom]; [rewrite app_nil_r; reflexivity|].
  destruct (styleHTML token lv ind) as [[text lv'] ind'].
  rewrite (IH lv' ind' (out ++ text)), (IH lv' ind' ([] ++ text)).
  rewrite <- app_assoc. reflexivity.
Qed.

Lemma printTokensFrom_app (ts1 ts2 : list Token) :
  forall (indentationLevel : Z) (isToIndent : bool) (out : gostring),
    printTokensFrom (ts1 ++ ts2) indentationLevel isToIndent out
    = printTokensFrom ts2
        (fst (indentationAfter ts1 indentationLevel isToIndent))
        (snd (indentationAfter ts1 indentationLevel isToIndent))
        (printTokensFrom ts1 indentationLevel isToIndent out).
Proof.
  induction ts1 as [|token rest IH]; intros lv ind out;
    cbn [app printTokensFrom indentationAfter fst snd]; [reflexivity|].
  destruct (styleHTML token lv ind) as [[text lv'] ind']. apply IH.
Qed.

(** X16.  What [printTokens] prints is, token after token in the order of
    the array, the styled token (tags and escaped content) between two
    strings of white space: nothing but spaces, tabs and line feeds is put
    between the styled tokens, and no token is left out or repeated. *)
Theorem printTokens_shape (tokenArray : list Token) :
  exists ws : list (gostring * gostring),
    List.length ws = List.length tokenArray
    /\ Forall (fun w => whiteSpace (fst w) /\ whiteSpace (snd w)) ws
    /\ printTokens tokenArray
       = List.concat
           (map (fun tw => fst (snd tw) ++ styled (fst tw) ++ snd (snd tw))
                (combine tokenArray ws)).
Proof.
  unfold printTokens. generalize 0 false.
  induction tokenArray as [|token rest IH]; intros lv ind.
  - exists []. repeat split. constructor.
  - cbn [printTokensFrom]. rewrite styleHTML_addWhiteSpace.
    pose proof (addWhiteSpace_whiteSpace token lv ind) as W.
    destruct (addWhiteSpace token lv ind) as [[[pre post] lv'] ind'].
    cbn [fst snd] in W. destruct (IH lv' ind') as (ws & L & F & E).
    exists ((pre, post) :: ws). split; [simpl; congruence|].
    split; [constructor; assumption|].
    rewrite printTokensFrom_out, E. cbn [combine map List.concat fst snd app].
    reflexivity.
Qed.

(** X17.  Printing is sequential: what has been printed is never changed by
    what is printed later, and the tokens after a point are printed as they
    would be on their own from the indentation level and the flag that the
    tokens before the point have left. *)
Theorem printTokens_app (ts1 ts2 : list Token) :
  printTokens (ts1 ++ ts2)
  = printTokens ts1
    ++ printTokensFrom ts2 (fst (indentationAfter ts1 0 false))
                       (snd (indentationAfter ts1 0 false)) [].
Proof.
  unfold printTokens. rewrite printTokensFrom_app.
  apply printTokensFrom_out.
Qed.

Lemma wrapInt_add (a b : Z) : wrapInt (wrapInt a + b) = wrapInt (a + b).
Proof.
  unfold wrapInt. f_equal.
  replace ((a + 2 ^ 63) mod 2 ^ 64 - 2 ^ 63 + b + 2 ^ 63)
    with ((a + 2 ^ 63) mod 2 ^ 64 + b) by lia.
  rewrite Z.add_mod_idemp_l by lia. f_equal. lia.
Qed.

Lemma wrapInt_small (a : Z) : - 2 ^ 63 <= a < 2 ^ 63 -> wrapInt a = a.
Proof. intros H. unfold wrapInt. rewrite Z.mod_small; lia. Qed.

Lemma styleHTML_level (token : Token) (indentationLevel : Z)
      (isToIndent : bool) :
  snd (fst (styleHTML token indentationLevel isToIndent))
  = (if opening token then wrapInt (indentationLevel + 1)
     else if closing token then wrapInt (indentationLevel - 1)
     else indentationLevel)
  /\ snd (styleHTML token indentationLevel isToIndent)
     = (opening token || (kind token =? DelimiterMember)).
Proof.
  rewrite styleHTML_addWhiteSpace. unfold addWhiteSpace, opening, closing.
  destruct (kind token =? ObjectOpen) eqn:E1;
    [apply Z.eqb_eq in E1; rewrite E1; split; reflexivity|].
  destruct (kind token =? ArrayOpen) eqn:E2;
    [apply Z.eqb_eq in E2; rewrite E2; split; reflexivity|].
  destruct (kind token =? ObjectClose) eqn:E3;
    [apply Z.eqb_eq in E3; rewrite E3; split; reflexivity|].
  destruct (kind token =? ArrayClose) eqn:E4;
    [apply Z.eqb_eq in E4; rewrite E4; split; reflexivity|].
  destruct (kind token =? DelimiterPair) eqn:E5;
    [apply Z.eqb_eq in E5; rewrite E5; split; reflexivity|].
  destruct (kind token =? DelimiterMember) eqn:E6; split; reflexivity.
Qed.

Lemma count_cons (p : Token -> bool) (t : Token) (ts : list Token) :
  count p (t :: ts) = (if p t then 1 else 0) + count p ts.
Proof.
  unfold count. cbn [filter]. destruct (p t); cbn [List.length]; lia.
Qed.

Lemma opening_closing (token : Token) :
  opening token = true -> closing token = false.
Proof.
  unfold opening, closing. intros H. apply orb_true_iff in H.
  destruct H as [H | H]; apply Z.eqb_eq in H; rewrite H; reflexivity.
Qed.

Lemma indentationAfter_wrap (tokenArray : list Token) :
  forall (indentationLevel : Z) (isToIndent : bool),
    fst (indentationAfter tokenArray (wrapInt indentationLevel) isToIndent)
    = wrapInt (indentationLevel + count opening tokenArray
               - count closing tokenArray).
Proof.
  induction tokenArray as [|token rest IH]; intros lv ind.
  - cbn [indentationAfter fst]. unfold count. cbn. f_equal; lia.
  - cbn [indentationAfter].
    destruct (styleHTML_level token (wrapInt lv) ind) as [L _].
    destruct (styleHTML token (wrapInt lv) ind) as [[text lv'] ind'].
    cbn [fst snd] in L. subst lv'. rewrite !count_cons.
    destruct (opening token) eqn:O.
    + rewrite (opening_closing _ O), wrapInt_add, IH. f_equal; lia.
    + destruct (closing token).
      * replace (wrapInt lv - 1) with (wrapInt lv + - 1) by lia.
        rewrite wrapInt_add, IH. f_equal; lia.
      * rewrite IH. f_equal; lia.
Qed.

(** X18.  The indentation level after a token array has been printed is the
    level at the start plus the number of opening tokens minus the number of
    closing tokens of the array, as a 64-bit integer; it is negative when
    more tokens close than open.  The flag is set exactly when the last
    token is an opening token or a comma. *)
Theorem indentationAfter_level (tokenArray : list Token)
        (indentationLevel : Z) (isToIndent : bool) :
  - 2 ^ 63 <= indentationLevel < 2 ^ 63 ->
  fst (indentationAfter tokenArray indentationLevel isToIndent)
  = wrapInt (indentationLevel + count opening tokenArray
             - count closing tokenArray)
  /\ (- 2 ^ 63 <= indentationLevel + count opening tokenArray
                  - count closing tokenArray < 2 ^ 63 ->
      fst (indentationAfter tokenArray indentationLevel isToIndent)
      = indentationLevel + count opening tokenArray
        - count closing tokenArray)
  /\ (forall token : Token,
         snd (indentationAfter (tokenArray ++ [token]) indentationLevel
                               isToIndent)
         = (opening token || (kind token =? DelimiterMember))).
Proof.
  intros R.
  assert (L : fst (indentationAfter tokenArray indentationLevel isToIndent)
              = wrapInt (indentationLevel + count opening tokenArray
                         - count closing tokenArray)).
  { rewrite <- (wrapInt_small indentationLevel R) at 1.
    apply indentationAfter_wrap. }
  split; [exact L|]. split.
  - intros R'. rewrite L. apply wrapInt_small, R'.
  - intros token. clear. revert indentationLevel isToIndent.
    induction tokenArray as [|t rest IH]; intros lv ind.
    + cbn [app indentationAfter].
      destruct (styleHTML_level token lv ind) as [_ F].
      destruct (styleHTML token lv ind) as [[text lv'] ind']. exact F.
    + cbn [app indentationAfter].
      destruct (styleHTML t lv ind) as [[text lv'] ind']. apply IH.
Qed.

Lemma indentationAfter_level_witness :
  - 2 ^ 63 <= 0 < 2 ^ 63
  /\ fst (indentationAfter [mkToken (lit "]") ArrayClose;
                            mkToken (lit "{") ObjectOpen;
                            mkToken (lit "]") ArrayClose;
                            mkToken (lit "}") ObjectClose] 0 false)
     = -2.
Proof.
  assert (R : - 2 ^ 63 <= 0 < 2 ^ 63) by lia.
  split; [exact R|].
  pose proof (proj1 (proj2 (indentationAfter_level
                              [mkToken (lit "]") ArrayClose;
                               mkToken (lit "{") ObjectOpen;
                               mkToken (lit "]") ArrayClose;
                               mkToken (lit "}") ObjectClose] 0 false R)))
    as W.
  vm_compute in W. vm_compute. apply W. split; [discriminate | reflexivity].
Defined.

(** X19.  A token that is no closing token and no colon is preceded by white
    space only when the flag is set, that is after an opening token or a
    comma, and then by as many tabs as the indentation level says, but by
    one tab at least: on level zero and below a token after a comma is
    indented by one tab as on level one. *)
Theorem addWhiteSpace_indent (token : Token) (indentationLevel : Z)
        (isToIndent : bool) :
  closing token = false -> (kind token =? DelimiterPair) = false ->
  fst (fst (fst (addWhiteSpace token indentationLevel isToIndent)))
  = if isToIndent
    then List.repeat x09 (Z.to_nat (Z.max 1 indentationLevel))
    else [].
Proof.
  intros C P. unfold closing in C. apply orb_false_iff in C.
  destruct C as [C1 C2].
  assert (E : fst (fst (fst (addWhiteSpace token indentationLevel
                                           isToIndent)))
              = if isToIndent then indentStringOf indentationLevel ++ tab
                else []).
  { unfold addWhiteSpace. rewrite C1, C2, P. cbn [orb].
    repeat match goal with
    | |- context [if ?c then (_, _, _, _) else _] => destruct c
    end; reflexivity. }
  rewrite E. destruct isToIndent; [|reflexivity].
  rewrite indentStringOf_tabs. change tab with (List.repeat x09 1).
  rewrite <- repeat_app. f_equal. lia.
Qed.

Lemma addWhiteSpace_indent_witness :
  fst (fst (fst (addWhiteSpace (mkToken (lit "[") ArrayOpen) 0 true)))
  = [x09].
Proof.
  exact (addWhiteSpace_indent (mkToken (lit "[") ArrayOpen) 0 true
                              eq_refl eq_refl).
Defined.

(** * Properties of the program *)

Lemma printFooter_out (stdout : gostring) :
  printFooter stdout = stdout ++ printFooter [].
Proof.
  unfold printFooter, Println, Print. cbn [app].
  rewrite <- !app_assoc. reflexivity.
Qed.

Lemma printHeader_out (stdout : gostring) :
  printHeader stdout = stdout ++ printHeader [].
Proof.
  unfold printHeader, Println. cbn [app].
  rewrite <- !app_assoc. reflexivity.
Qed.

Lemma getTokens_total (jsonFile : list byte) :
  panicsAtEnd jsonFile (getTokens jsonFile)
  \/ exists tokenArray, getTokens jsonFile = Ok tokenArray.
Proof.
  unfold getTokens.
  destruct (getTokensFrom_spec jsonFile (List.length jsonFile) 0 [])
    as [Pn | (ts & E & _)]; [lia | constructor | left; exact Pn|].
  right. exists ts. exact E.
Qed.

Lemma main_no_file {error : Type} (Args : list gostring)
      (ReadFile : gostring -> list byte + error) :
  (List.length Args < 2)%nat ->
  main Args ReadFile
  = Panicked (PanicString (lit "Filename not detected")) [].
Proof.
  intros L. unfold main. apply Nat.ltb_lt in L. rewrite L. reflexivity.
Qed.

Lemma main_file {error : Type} (program fileName : gostring)
      (rest : list gostring) (ReadFile : gostring -> list byte + error) :
  main (program :: fileName :: rest) ReadFile
  = match ReadFile fileName with
    | inr err => Panicked (PanicError err) []
    | inl jsonFile =>
      match getTokens jsonFile with
      | Ok tokenArray =>
        Returned (printHeader [] ++ printTokens tokenArray ++ printFooter [])
      | IndexOutOfRange index len => Panicked (PanicIndex index len) []
      | OutOfFuel => Unfinished
      end
    end.
Proof.
  unfold main. cbn [List.length Nat.ltb Nat.leb nth_error].
  destruct (ReadFile fileName) as [jsonFile | err]; [|reflexivity].
  destruct (getTokens jsonFile) as [tokenArray| |]; try reflexivity.
  rewrite printFooter_out, printTokensFrom_out. unfold printTokens.
  rewrite <- app_assoc. reflexivity.
Qed.

(** X20.  The runs of the program.  Without a file name on the command line
    it panics with the message of line 12.  With one, it panics with the
    error of [ioutil.ReadFile] when the file cannot be read; it panics with
    an index out of range at the length of the file when [getTokens] reads
    past the end; and otherwise it returns, having printed the header, the
    tokens of the file and the footer, in this order and nothing else. *)
Theorem main_outcome {error : Type} (Args : list gostring)
        (ReadFile : gostring -> list byte + error) :
  ((List.length Args < 2)%nat ->
   main Args ReadFile
   = Panicked (PanicString (lit "Filename not detected")) [])
  /\ (forall (program fileName : gostring) (rest : list gostring),
         Args = program :: fileName :: rest ->
         (forall err : error,
             ReadFile fileName = inr err ->
             main Args ReadFile = Panicked (PanicError err) [])
         /\ (forall jsonFile : list byte,
                ReadFile fileName = inl jsonFile ->
                (panicsAtEnd jsonFile (getTokens jsonFile)
                 /\ main Args ReadFile
                    = Panicked
                        (PanicIndex (Z.of_nat (List.length jsonFile))
                                    (List.length jsonFile)) [])
                \/ (exists tokenArray,
                       getTokens jsonFile = Ok tokenArray
                       /\ main Args ReadFile
                          = Returned (printHeader []
                                      ++ printTokens tokenArray
                                      ++ printFooter [])))).
Proof.
  split; [apply main_no_file|].
  intros program fileName rest ->. rewrite main_file. split.
  - intros err ->. reflexivity.
  - intros jsonFile ->.
    destruct (getTokens_total jsonFile) as [Pn | (ts & E)].
    + left. split; [exact Pn|]. red in Pn. rewrite Pn. reflexivity.
    + right. exists ts. split; [exact E|]. rewrite E. reflexivity.
Qed.

Lemma main_outcome_witness :
  main (error := unit) [lit "json-pretty-printer"; lit "braces.json"]
       (fun _ => inl Examples.braces)
  = Returned (printHeader []
              ++ printTokens [mkToken (lit "{") ObjectOpen;
                              mkToken (lit "}") ObjectClose]
              ++ printFooter []).
Proof.
  destruct (proj2 (proj2 (main_outcome
                            [lit "json-pretty-printer"; lit "braces.json"]
                            (fun _ : gostring =>
                               @inl (list byte) unit Examples.braces))
                         _ _ _ eq_refl)
                  Examples.braces eq_refl) as [[Pn _] | (ts & E & M)].
  - exfalso. revert Pn. vm_compute. discriminate.
  - rewrite M. vm_compute in E. injection E as <-. vm_compute.
    reflexivity.
Defined.

(** X21.  The program prints all or nothing: a run that panics has printed
    nothing, not even the header, because the file is read and tokenized
    before the first byte is printed; a run that returns has printed a
    document that starts with the header and ends with the footer.  Every
    run ends in one of the two ways. *)
Theorem main_all_or_nothing {error : Type} (Args : list gostring)
        (ReadFile : gostring -> list byte + error) :
  main Args ReadFile <> Unfinished
  /\ (forall (v : panicValue error) (stdout : gostring),
         main Args ReadFile = Panicked v stdout -> stdout = [])
  /\ (forall stdout : gostring,
         main Args ReadFile = Returned stdout ->
         exists body, stdout = printHeader [] ++ body ++ printFooter []).
Proof.
  destruct (Nat.ltb_spec (List.length Args) 2) as [L | G].
  { rewrite (main_no_file _ _ L).
    split; [|split]; [discriminate | intros v stdout H; injection H; auto
                   | discriminate]. }
  destruct Args as [|program [|fileName rest]]; try (simpl in G; lia).
  rewrite main_file.
  destruct (ReadFile fileName) as [jsonFile | err].
  2:{ split; [|split]; [discriminate | intros v stdout H; injection H; auto
                     | discriminate]. }
  destruct (getTokens_total jsonFile) as [Pn | (ts & E)].
  - red in Pn. rewrite Pn.
    split; [|split]; [discriminate | intros v stdout H; injection H; auto
                   | discriminate].
  - rewrite E. split; [|split]; [discriminate | discriminate|].
    intros stdout H. exists (printTokens ts). congruence.
Qed.

Lemma main_all_or_nothing_witness :
  main (error := unit) [lit "json-pretty-printer"; lit "number.json"]
       (fun _ => inl Examples.number)
  = Panicked (PanicIndex 8 8) []
  /\ ([] : gostring) = [].
Proof.
  assert (H : main (error := unit)
                   [lit "json-pretty-printer"; lit "number.json"]
                   (fun _ => inl Examples.number)
              = Panicked (PanicIndex 8 8) []) by (vm_compute; reflexivity).
  split; [exact H|].
  exact (proj1 (proj2 (main_all_or_nothing
                         [lit "json-pretty-printer"; lit "number.json"]
                         (fun _ : gostring =>
                            @inl (list byte) unit Examples.number)))
               _ _ H).
Defined.

(** X22.  The program uses the second word of the command line and the file
    of that name, nothing else: the name of the program, further arguments
    and other files do not change the run. *)
Theorem main_uses_one_file {error : Type}
        (program program' fileName : gostring) (rest rest' : list gostring)
        (ReadFile ReadFile' : gostring -> list byte + error) :
  ReadFile fileName = ReadFile' fileName ->
  main (program :: fileName :: rest) ReadFile
  = main (program' :: fileName :: rest') ReadFile'.
Proof. intros E. rewrite !main_file, E. reflexivity. Qed.

Lemma main_uses_one_file_witness :
  main (error := unit) [lit "a"; lit "f"; lit "x"]
       (fun _ => inl Examples.braces)
  = main [lit "b"; lit "f"]
         (fun name => if streq name (lit "f") then inl Examples.braces
                      else inr tt).
Proof.
  apply (main_uses_one_file (error := unit)). reflexivity.
Defined.
